(** * Re-Thing: the image uploader's upload pipeline

    A shallow embedding of [src/components/image-uploader.tsx]: the React
    component [ImageUploader] as an event-driven state machine.

    - The React state variables and the two refs are fields of [State], each
      with the setter the source calls ([setError], [setProgress], ...).
    - The browser and the background-removal library are the environment:
      the blob URL store behind [URL.createObjectURL]/[URL.revokeObjectURL],
      the pending [FileReader]s, the pending [removeBackground] promises, and
      a log of the calls the component makes on them.
    - Every handler of the source is a function on [State]; an [Event] is one
      run-to-completion turn of the JavaScript event loop ([step]).

    Presentation-only state that no handler below reads ([isDragging],
    [useCheckerboard], the scroll lock) is left out. *)

From Stdlib Require Import QArith Qround Qabs Ascii String DecimalString.
From stdpp Require Import gmap strings list.

(** ** JavaScript numbers *)

(** The progress value is a JavaScript number, a binary64 floating-point
    value.  A finite value is given by the rational it denotes, with the
    negative zero apart; [Fin q] with [q == 0] is the positive zero.  The
    results of [/] and [*] are rounded as IEEE 754 prescribes: to the nearest
    value with a 53-bit significand, ties to the even one, gradual underflow
    below [2^-1022] and overflow to an infinity from [2^1024] on. *)
Module JsNum.

Inductive num : Type :=
| Fin (q : Q)
| NegZero
| PosInf
| NegInf
| NaN.

Definition of_Z (z : Z) : num := Fin (inject_Z z).

Definition zero (negative : bool) : num := if negative then NegZero else Fin 0.
Definition infinity (negative : bool) : num := if negative then NegInf else PosInf.

Definition is_nan (a : num) : bool :=
  match a with NaN => true | _ => false end.
Definition is_inf (a : num) : bool :=
  match a with PosInf | NegInf => true | _ => false end.
Definition is_zero (a : num) : bool :=
  match a with
  | Fin q => match (q ?= 0)%Q with Eq => true | _ => false end
  | NegZero => true
  | _ => false
  end.

(** The sign bit. *)
Definition is_neg (a : num) : bool :=
  match a with
  | Fin q => match (q ?= 0)%Q with Lt => true | _ => false end
  | NegZero | NegInf => true
  | _ => false
  end.

(** The rational a finite number denotes. *)
Definition value (a : num) : Q :=
  match a with
  | Fin q => q
  | _ => 0
  end.

(** The integer nearest to [y], the even one of two equally near. *)
Definition nearest_even (y : Q) : Z :=
  let f := Qfloor y in
  match (y - inject_Z f ?= 1 # 2)%Q with
  | Lt => f
  | Gt => (f + 1)%Z
  | Eq => if Z.even f then f else (f + 1)%Z
  end.

(** [2^e] *)
Definition pow2 (e : Z) : Q :=
  (2 ^ Z.max e 0)%Z # Z.to_pos (2 ^ Z.max (- e) 0).

(** The exponent of the last significand bit of the binary64 values around
    [a > 0]: [floor (log2 a) - 52], and [-1074] in the subnormal range. *)
Definition exponent (a : Q) : Z :=
  Z.max (Z.log2 (Qfloor (a * inject_Z (2 ^ 1074))) - 1126) (-1074).

(** The binary64 value nearest to the real number [q <> 0]. *)
Definition round64 (q : Q) : num :=
  let negative := match (q ?= 0)%Q with Lt => true | _ => false end in
  let a := Qabs q in
  let e := exponent a in
  let m := nearest_even (a / pow2 e) in
  if (m =? 0)%Z then zero negative
  else if (1024 <=? e + Z.log2 m)%Z then infinity negative
  else let v := (inject_Z m * pow2 e)%Q in
       Fin (if negative then - v else v).

(** [a / b] *)
Definition div (a b : num) : num :=
  let negative := xorb (is_neg a) (is_neg b) in
  if is_nan a || is_nan b then NaN
  else if is_inf a then (if is_inf b then NaN else infinity negative)
  else if is_inf b then zero negative
  else if is_zero b then (if is_zero a then NaN else infinity negative)
  else if is_zero a then zero negative
  else round64 (value a / value b).

(** [a * b] *)
Definition mul (a b : num) : num :=
  let negative := xorb (is_neg a) (is_neg b) in
  if is_nan a || is_nan b then NaN
  else if is_inf a || is_inf b
       then (if is_zero a || is_zero b then NaN else infinity negative)
  else if is_zero a || is_zero b then zero negative
  else round64 (value a * value b).

(** [Math.max(a, b)]: NaN if either argument is NaN; the positive zero is
    the larger of the two zeros. *)
Definition Math_max (a b : num) : num :=
  match a, b with
  | NaN, _ | _, NaN => NaN
  | PosInf, _ | _, PosInf => PosInf
  | NegInf, x | x, NegInf => x
  | NegZero, NegZero => NegZero
  | NegZero, Fin y => if Qle_bool 0 y then Fin y else NegZero
  | Fin x, NegZero => if Qle_bool 0 x then Fin x else NegZero
  | Fin x, Fin y => if Qle_bool x y then Fin y else Fin x
  end.

(** [Math.round(a)]: the nearest integer, halves rounded up; the negative
    zero for a negative number that rounds to zero. *)
Definition Math_round (a : num) : num :=
  match a with
  | Fin x =>
      let n := Qfloor (x + (1 # 2)) in
      if (n =? 0)%Z && is_neg (Fin x) then NegZero else of_Z n
  | other => other
  end.

(** [lo <= a && a <= hi] for finite bounds; false on NaN, as in JavaScript. *)
Definition between (lo hi : Q) (a : num) : bool :=
  match a with
  | Fin x => Qle_bool lo x && Qle_bool x hi
  | NegZero => Qle_bool lo 0 && Qle_bool 0 hi
  | _ => false
  end.

(** [lo <= a]; false on NaN. *)
Definition at_least (lo : Q) (a : num) : bool :=
  match a with
  | Fin x => Qle_bool lo x
  | NegZero => Qle_bool lo 0
  | PosInf => true
  | _ => false
  end.

End JsNum.
Import JsNum.

(** ** Files and the validator *)

(** The part of a DOM [File] the component reads. *)
Record File : Type := {
  file_name : string;
  file_type : string;
  file_size : Z;
}.

Definition ALLOWED_FILE_TYPES : list string :=
  ["image/png"; "image/jpeg"; "image/webp"].

(** [5 * 1024 * 1024], the argument of [z.number().max]. *)
Definition MAX_FILE_SIZE : Z := 5 * 1024 * 1024.

(** What a [catch] clause of the component can receive. *)
Inductive Exn : Type :=
| ZodError
| OtherError.

(** [imageFileSchema.parse({ type, size })]: [z.enum] accepts exactly the
    listed strings, [z.number().max(n)] accepts [size <= n]. *)
Definition imageFileSchema_parse (type : string) (size : Z) : Exn + unit :=
  if existsb (String.eqb type) ALLOWED_FILE_TYPES && (size <=? MAX_FILE_SIZE)%Z
  then inr ()
  else inl ZodError.

Definition accepts (f : File) : bool :=
  match imageFileSchema_parse (file_type f) (file_size f) with
  | inr _ => true
  | inl _ => false
  end.

Definition MSG_INVALID_FILE : string :=
  "Please upload a valid PNG, JPG, or WEBP image (max 5MB).".
Definition MSG_MALFORMED : string :=
  "Invalid file. Please try a different image.".
Definition MSG_READ_FAILED : string :=
  "Failed to read the file. Please try again.".

(** The [catch (err)] clause of [validateAndProcessFile]. *)
Definition validation_catch (err : Exn) : string :=
  match err with
  | ZodError => MSG_INVALID_FILE
  | OtherError => MSG_MALFORMED
  end.

(** ** The download name *)

Definition is_dot (c : ascii) : bool := Ascii.eqb c "."%char.
Definition is_slash (c : ascii) : bool := Ascii.eqb c "/"%char.

(** The character class [[^/.]]. *)
Definition ext_char (c : ascii) : bool := negb (is_slash c) && negb (is_dot c).

Fixpoint all_ext_chars (s : string) : bool :=
  match s with
  | EmptyString => true
  | String c rest => ext_char c && all_ext_chars rest
  end.

(** Does [/\.[^/.]+$/] match [s] from its first character on? *)
Definition ext_matches_here (s : string) : bool :=
  match s with
  | String c (String d rest as tail) => is_dot c && all_ext_chars tail
  | _ => false
  end.

(** [s.replace(/\.[^/.]+$/, "")]: the leftmost match is removed; the pattern
    is anchored at the end, so everything from the match on goes. *)
Fixpoint strip_extension (s : string) : string :=
  match s with
  | EmptyString => EmptyString
  | String c rest =>
      if ext_matches_here s then EmptyString else String c (strip_extension rest)
  end.

(** [fileName ? fileName.replace(...) : "background-removed"]: [null] and the
    empty string are both falsy. *)
Definition baseName (fileName : option string) : string :=
  match fileName with
  | Some (String _ _ as name) => strip_extension name
  | _ => "background-removed"
  end.

Definition downloadName (fileName : option string) : string :=
  baseName fileName +:+ ".png".

(** ** Component state *)

(** An object URL ([blob:...]) is identified by the order in which
    [URL.createObjectURL] produced it; a blob by a label for its content. *)
Definition ObjectUrl : Type := nat.
Definition Blob : Type := string.

(** The [useState] variables of [ImageUploader]. *)
Record View : Type := MkView {
  image : option string;
  processedImage : option ObjectUrl;
  fileName : option string;
  fileSize : option Z;
  error : option string;
  isProcessing : bool;
  progress : num;
  originalLoaded : bool;
  processedLoaded : bool;
}.

(** The [useRef] cells that the handlers mutate. *)
Record Refs : Type := MkRefs {
  abortControllerRef : option nat;
  processedUrlRef : option ObjectUrl;
}.

(** A value caught by [catch (err)] in [processImage]: whether it is an
    [Error] instance, and its [name] and [message]. *)
Record Thrown : Type := {
  isError : bool;
  err_name : string;
  err_message : string;
}.

(** Calls the component makes on the browser and on the library. *)
Inductive Effect : Type :=
| EAbort (controller : nat)
| ERemoveBackground (job : nat) (imageUrl : string)
| ECreateObjectURL (u : ObjectUrl) (b : Blob)
| ERevokeObjectURL (u : ObjectUrl)
| EReadAsDataURL (reader : nat) (f : File)
| EConsoleError
| EDownload (href : ObjectUrl) (download : string)
| EResetFileInput.

(** The environment: the browser's blob URL store, the abort controllers that
    were aborted, the [removeBackground] promises and [FileReader]s that have
    not settled yet, and the calls made so far, newest first. *)
Record Env : Type := MkEnv {
  blobUrlStore : gmap ObjectUrl Blob;
  nextUrl : nat;
  aborted : gset nat;
  jobs : gset nat;
  nextJob : nat;
  readers : gset nat;
  nextReader : nat;
  log : list Effect;
  mounted : bool;
}.

Record State : Type := MkState {
  view : View;
  refs : Refs;
  env : Env;
}.

Definition initial : State :=
  {| view := MkView None None None None None false (Fin 0) false false;
     refs := MkRefs None None;
     env := MkEnv ∅ 0 ∅ ∅ 0 ∅ 0 [] true |}.

(** *** State setters *)

Definition with_view (f : View -> View) (s : State) : State :=
  MkState (f (view s)) (refs s) (env s).
Definition with_refs (f : Refs -> Refs) (s : State) : State :=
  MkState (view s) (f (refs s)) (env s).
Definition with_env (f : Env -> Env) (s : State) : State :=
  MkState (view s) (refs s) (f (env s)).

Definition setImage (x : option string) : State -> State :=
  with_view (fun '(MkView _ pi fn fs er ip pr ol pl) => MkView x pi fn fs er ip pr ol pl).
Definition setProcessedImage (x : option ObjectUrl) : State -> State :=
  with_view (fun '(MkView im _ fn fs er ip pr ol pl) => MkView im x fn fs er ip pr ol pl).
Definition setFileName (x : option string) : State -> State :=
  with_view (fun '(MkView im pi _ fs er ip pr ol pl) => MkView im pi x fs er ip pr ol pl).
Definition setFileSize (x : option Z) : State -> State :=
  with_view (fun '(MkView im pi fn _ er ip pr ol pl) => MkView im pi fn x er ip pr ol pl).
Definition setError (x : option string) : State -> State :=
  with_view (fun '(MkView im pi fn fs _ ip pr ol pl) => MkView im pi fn fs x ip pr ol pl).
Definition setIsProcessing (x : bool) : State -> State :=
  with_view (fun '(MkView im pi fn fs er _ pr ol pl) => MkView im pi fn fs er x pr ol pl).
Definition setProgress (x : num) : State -> State :=
  with_view (fun '(MkView im pi fn fs er ip _ ol pl) => MkView im pi fn fs er ip x ol pl).
Definition setOriginalLoaded (x : bool) : State -> State :=
  with_view (fun '(MkView im pi fn fs er ip pr _ pl) => MkView im pi fn fs er ip pr x pl).
Definition setProcessedLoaded (x : bool) : State -> State :=
  with_view (fun '(MkView im pi fn fs er ip pr ol _) => MkView im pi fn fs er ip pr ol x).

(** [abortControllerRef.current = x] and [processedUrlRef.current = x] *)
Definition set_abortControllerRef (x : option nat) : State -> State :=
  with_refs (fun r => MkRefs x (processedUrlRef r)).
Definition set_processedUrlRef (x : option ObjectUrl) : State -> State :=
  with_refs (fun r => MkRefs (abortControllerRef r) x).

(** *** Environment calls *)

Definition emit (e : Effect) : State -> State :=
  with_env (fun '(MkEnv st nu ab jb nj rd nr lg mt) =>
              MkEnv st nu ab jb nj rd nr (e :: lg) mt).

(** [controller.abort()].  No call of the component hands a controller's
    signal to anything, so aborting only marks the controller. *)
Definition abort (c : nat) (s : State) : State :=
  emit (EAbort c)
    (with_env (fun '(MkEnv st nu ab jb nj rd nr lg mt) =>
                 MkEnv st nu ({[c]} ∪ ab) jb nj rd nr lg mt) s).

(** [URL.revokeObjectURL(u)] *)
Definition URL_revokeObjectURL (u : ObjectUrl) (s : State) : State :=
  emit (ERevokeObjectURL u)
    (with_env (fun '(MkEnv st nu ab jb nj rd nr lg mt) =>
                 MkEnv (delete u st) nu ab jb nj rd nr lg mt) s).

(** [URL.createObjectURL(blob)]: a URL never handed out before. *)
Definition URL_createObjectURL (b : Blob) (s : State) : ObjectUrl * State :=
  let u := nextUrl (env s) in
  (u, emit (ECreateObjectURL u b)
        (with_env (fun '(MkEnv st nu ab jb nj rd nr lg mt) =>
                     MkEnv (<[u := b]> st) (S nu) ab jb nj rd nr lg mt) s)).

(** [removeBackground(imageUrl, { progress, output, model, debug })]: the
    call returns a promise, which stays pending until the library settles
    it.  The configuration carries no abort signal. *)
Definition removeBackground (imageUrl : string) (s : State) : nat * State :=
  let j := nextJob (env s) in
  (j, emit (ERemoveBackground j imageUrl)
        (with_env (fun '(MkEnv st nu ab jb nj rd nr lg mt) =>
                     MkEnv st nu ab ({[j]} ∪ jb) (S nj) rd nr lg mt) s)).

(** [new FileReader()] followed by [reader.readAsDataURL(file)] *)
Definition readAsDataURL (f : File) (s : State) : nat * State :=
  let r := nextReader (env s) in
  (r, emit (EReadAsDataURL r f)
        (with_env (fun '(MkEnv st nu ab jb nj rd nr lg mt) =>
                     MkEnv st nu ab jb nj ({[r]} ∪ rd) (S nr) lg mt) s)).

(** A promise or a reader settles once. *)
Definition settle_job (j : nat) : State -> State :=
  with_env (fun '(MkEnv st nu ab jb nj rd nr lg mt) =>
              MkEnv st nu ab (jb ∖ {[j]}) nj rd nr lg mt).
Definition settle_reader (r : nat) : State -> State :=
  with_env (fun '(MkEnv st nu ab jb nj rd nr lg mt) =>
              MkEnv st nu ab jb nj (rd ∖ {[r]}) nr lg mt).
Definition set_mounted (b : bool) : State -> State :=
  with_env (fun '(MkEnv st nu ab jb nj rd nr lg _) =>
              MkEnv st nu ab jb nj rd nr lg b).

(** ** The handlers *)

(** [if (processedUrlRef.current) { URL.revokeObjectURL(...);
    processedUrlRef.current = null; }], written three times in the source. *)
Definition release_processedUrl (s : State) : State :=
  match processedUrlRef (refs s) with
  | Some u => set_processedUrlRef None (URL_revokeObjectURL u s)
  | None => s
  end.

(** [processImage] up to its [await]: lines 84-94.  The controller made by
    [new AbortController()] is named by the number of the job started under
    it. *)
Definition processImage_start (imageUrl : string) (s : State) : State :=
  let s := match abortControllerRef (refs s) with
           | Some c => abort c s
           | None => s
           end in
  let controller := nextJob (env s) in
  let s := set_abortControllerRef (Some controller) s in
  let s := setIsProcessing true s in
  let s := setProgress (Fin 0) s in
  let s := setError None s in
  let s := setProcessedLoaded false s in
  snd (removeBackground imageUrl s).

(** The [progress] callback handed to [removeBackground]. *)
Definition progress_callback (key : string) (current total : num) (s : State) : State :=
  let pct := mul (div current total) (Fin 100) in
  setProgress pct s.

(** The [finally] block of [processImage]. *)
Definition processImage_finally (s : State) : State :=
  let s := setIsProcessing false s in
  let s := setProgress (Fin 0) s in
  set_abortControllerRef None s.

(** [processImage] after its [await] delivered [blob]: lines 104-111, then
    [finally]. *)
Definition processImage_resolved (blob : Blob) (s : State) : State :=
  let s := release_processedUrl s in
  let '(url, s) := URL_createObjectURL blob s in
  let s := set_processedUrlRef (Some url) s in
  let s := setProcessedImage (Some url) s in
  processImage_finally s.

Definition MSG_PROCESSING_FAILED : string :=
  "Failed to remove background. Please try again.".

Definition processing_failure_message (err : Thrown) : string :=
  if isError err
  then "Failed to remove background: " +:+ err_message err
  else MSG_PROCESSING_FAILED.

(** [err instanceof Error && err.name === "AbortError"] *)
Definition is_abort (err : Thrown) : bool :=
  isError err && String.eqb (err_name err) "AbortError".

(** [processImage] after its [await] threw [err]: the [catch] clause, then
    [finally]. *)
Definition processImage_rejected (err : Thrown) (s : State) : State :=
  let s := if is_abort err
           then s
           else setError (Some (processing_failure_message err)) (emit EConsoleError s) in
  processImage_finally s.

(** [validateAndProcessFile]: the [try] body runs up to
    [reader.readAsDataURL(file)]; [parse] is its only statement that throws. *)
Definition validateAndProcessFile (file : File) (s : State) : State :=
  match imageFileSchema_parse (file_type file) (file_size file) with
  | inr _ =>
      let s := setFileName (Some (file_name file)) s in
      let s := setFileSize (Some (file_size file)) s in
      let s := setError None s in
      let s := setOriginalLoaded false s in
      let s := setProcessedLoaded false s in
      let s := setProcessedImage None s in
      snd (readAsDataURL file s)
  | inl err => setError (Some (validation_catch err)) s
  end.

(** [reader.onload] *)
Definition reader_onload (imageUrl : string) (s : State) : State :=
  let s := setImage (Some imageUrl) s in
  processImage_start imageUrl s.

(** [reader.onerror] *)
Definition reader_onerror (s : State) : State :=
  setError (Some MSG_READ_FAILED) s.

(** [clearImage] *)
Definition clearImage (s : State) : State :=
  let s := match abortControllerRef (refs s) with
           | Some c => abort c s
           | None => s
           end in
  let s := release_processedUrl s in
  let s := setImage None s in
  let s := setProcessedImage None s in
  let s := setFileName None s in
  let s := setFileSize None s in
  let s := setError None s in
  let s := setIsProcessing false s in
  let s := setProgress (Fin 0) s in
  let s := setOriginalLoaded false s in
  let s := setProcessedLoaded false s in
  emit EResetFileInput s.

(** [handleDownload]: the anchor's [href] and [download] attributes at the
    moment it is clicked. *)
Definition handleDownload (s : State) : State :=
  match processedImage (view s) with
  | None => s
  | Some href => emit (EDownload href (downloadName (fileName (view s)))) s
  end.

(** The cleanup of the mount effect (lines 72-79). *)
Definition unmount_cleanup (s : State) : State :=
  set_mounted false (release_processedUrl s).

(** What the progress indicator renders while [isProcessing]: the bar's
    width [Math.max(4, progress)] and the label [Math.round(progress)], both
    in percent. *)
Definition bar_width (s : State) : num := Math_max (Fin 4) (progress (view s)).
Definition percent_label (s : State) : num := Math_round (progress (view s)).

(** ** The event loop *)

Inductive Event : Type :=
| Submit (file : File)
| ReaderLoad (reader : nat) (dataUrl : string)
| ReaderError (reader : nat)
| Progress (job : nat) (key : string) (current total : num)
| Resolved (job : nat) (blob : Blob)
| Rejected (job : nat) (err : Thrown)
| Clear
| Download
| Unmount.

(** One turn of the event loop; [None] when the event cannot happen: user
    events need the component mounted, a reader or a promise settles only
    while pending, and the library reports progress only for a pending job.
    Readers and promises outlive the component: their callbacks still run
    after [Unmount], and [view] then holds what the setters were last given,
    which nothing renders any more. *)
Definition step (s : State) (e : Event) : option State :=
  match e with
  | Submit file =>
      if mounted (env s) then Some (validateAndProcessFile file s) else None
  | ReaderLoad r dataUrl =>
      if decide (r ∈ readers (env s))
      then Some (reader_onload dataUrl (settle_reader r s)) else None
  | ReaderError r =>
      if decide (r ∈ readers (env s))
      then Some (reader_onerror (settle_reader r s)) else None
  | Progress j key current total =>
      if decide (j ∈ jobs (env s))
      then Some (progress_callback key current total s) else None
  | Resolved j blob =>
      if decide (j ∈ jobs (env s))
      then Some (processImage_resolved blob (settle_job j s)) else None
  | Rejected j err =>
      if decide (j ∈ jobs (env s))
      then Some (processImage_rejected err (settle_job j s)) else None
  | Clear => if mounted (env s) then Some (clearImage s) else None
  | Download => if mounted (env s) then Some (handleDownload s) else None
  | Unmount => if mounted (env s) then Some (unmount_cleanup s) else None
  end.

Fixpoint run (s : State) (trace : list Event) : option State :=
  match trace with
  | [] => Some s
  | e :: rest =>
      match step s e with
      | Some s' => run s' rest
      | None => None
      end
  end.

(** Could every event of the trace happen, in this order, from [initial]? *)
Definition completes (trace : list Event) : bool :=
  match run initial trace with
  | Some _ => true
  | None => false
  end.

Inductive reachable : State -> Prop :=
| reachable_initial : reachable initial
| reachable_step s e s' : reachable s -> step s e = Some s' -> reachable s'.

(** The calls made between [s] and a later state [s'], newest first. *)
Definition emitted (s s' : State) : list Effect :=
  take (length (log (env s')) - length (log (env s))) (log (env s')).

(** The URLs passed to [URL.revokeObjectURL] so far, newest first. *)
Fixpoint revocations (l : list Effect) : list ObjectUrl :=
  match l with
  | [] => []
  | ERevokeObjectURL u :: rest => u :: revocations rest
  | _ :: rest => revocations rest
  end.

(** ** Sample inputs *)

Definition photo_jpg : File :=
  {| file_name := "photo.jpg"; file_type := "image/jpeg"; file_size := 2097152 |}.
Definition huge_png : File :=
  {| file_name := "huge.png"; file_type := "image/png"; file_size := 8388608 |}.
Definition a_png : File :=
  {| file_name := "a.png"; file_type := "image/png"; file_size := 1000 |}.
Definition b_png : File :=
  {| file_name := "b.png"; file_type := "image/png"; file_size := 2000 |}.

(** [photo.jpg] is read and its job is running. *)
Definition trace_running : list Event :=
  [Submit photo_jpg; ReaderLoad 0 "data:photo"].

(** [photo.jpg] was processed successfully. *)
Definition trace_success : list Event :=
  trace_running ++ [Resolved 0 "photo-cutout"].

(** [photo.jpg] is cleared while its job runs, and the job then delivers. *)
Definition trace_cleared_late : list Event :=
  trace_running ++ [Clear; Resolved 0 "photo-cutout"].

(** [photo.jpg] was accepted and its read is pending. *)
Definition trace_reading : list Event := [Submit photo_jpg].

(** [b.png] is submitted while the job of [a.png] runs; the job of [b.png]
    finishes first, the job of [a.png] after it. *)
Definition trace_superseded : list Event :=
  [Submit a_png; ReaderLoad 0 "data:a"; Submit b_png; ReaderLoad 1 "data:b";
   Resolved 1 "b-cutout"; Resolved 0 "a-cutout"].

(** The same, with the job of [a.png] failing while that of [b.png] runs. *)
Definition trace_superseded_failure : list Event :=
  [Submit a_png; ReaderLoad 0 "data:a"; Submit b_png; ReaderLoad 1 "data:b";
   Progress 1 "compute" (of_Z 1) (of_Z 2);
   Rejected 0 {| isError := true; err_name := "Error"; err_message := "out of memory" |}].

Definition state_after (trace : list Event) : State :=
  default initial (run initial trace).

(** ** Observations on a transition *)

(** How a [removeBackground] promise settles. *)
Inductive Settlement : Type :=
| Fulfilled (blob : Blob)
| Threw (err : Thrown).

Definition settle_event (j : nat) (o : Settlement) : Event :=
  match o with
  | Fulfilled blob => Resolved j blob
  | Threw err => Rejected j err
  end.

(** Between [s] and [s'] an object URL was created for a blob and is now the
    processed image. *)
Definition artifact_produced (s s' : State) : Prop :=
  exists u b, In (ECreateObjectURL u b) (emitted s s')
              /\ processedImage (view s') = Some u
              /\ blobUrlStore (env s') !! u = Some b.

(** Between [s] and [s'] a processing failure was reported. *)
Definition failure_surfaced (s s' : State) : Prop :=
  In EConsoleError (emitted s s')
  /\ exists m, error (view s') = Some m
               /\ String.prefix "Failed to remove background" m = true.

(** Between [s] and [s'] nothing was called, shown or stored. *)
Definition silently_cancelled (s s' : State) : Prop :=
  emitted s s' = []
  /\ error (view s') = error (view s)
  /\ processedImage (view s') = processedImage (view s)
  /\ blobUrlStore (env s') = blobUrlStore (env s).

(** The calls made by the release of a reference and by the abort of a
    controller, when there is one. *)
Definition revoke_effects (r : option ObjectUrl) : list Effect :=
  match r with
  | Some u => [ERevokeObjectURL u]
  | None => []
  end.

Definition abort_effects (c : option nat) : list Effect :=
  match c with
  | Some c => [EAbort c]
  | None => []
  end.

(** The object URLs that are live in the browser. *)
Definition live_urls (s : State) : gset ObjectUrl := dom (blobUrlStore (env s)).

(** What holds of the object URLs in every reachable state. *)
Record url_invariant (s : State) : Prop := {
  inv_live :
    live_urls s = match processedUrlRef (refs s) with
                  | Some u => {[u]}
                  | None => ∅
                  end;
  inv_fresh : forall u, u ∈ live_urls s -> u < nextUrl (env s);
  inv_revoked_fresh :
    forall u, In u (revocations (log (env s))) -> u < nextUrl (env s);
  inv_revoked_dead :
    forall u, In u (revocations (log (env s))) -> u ∉ live_urls s;
  inv_revoked_once : NoDup (revocations (log (env s)));
  inv_shown :
    mounted (env s) = true ->
    forall u, processedImage (view s) = Some u -> processedUrlRef (refs s) = Some u;
}.

(** ** Formatting a size *)

(** The decimal digits of an integer, as a template literal prints it. *)
Definition decimal (n : Z) : string := NilZero.string_of_int (Z.to_int n).

(** [Math.round(x)] of a finite [x], as an integer. *)
Definition round_half_up (x : Q) : Z := Qfloor (x + (1 # 2)).

Definition two_digits (d : Z) : string :=
  if (d <? 10)%Z then "0" +:+ decimal d else decimal d.

(** [x.toFixed(2)] for a finite [0 <= x < 10^21]: the integer [n] nearest to
    [100 * x], the larger one on a tie, printed with a point before its last
    two digits.  From [10^21] on [toFixed] prints in exponent notation
    instead, which [formatBytes] reaches only beyond [10^27] bytes. *)
Definition toFixed2 (x : Q) : string :=
  let n := round_half_up (x * 100) in
  decimal (n / 100) +:+ "." +:+ two_digits (n mod 100).

(** [formatBytes], on the integers a [File] has for its size: from 0 up to,
    but not including, [2^53].  Dividing such an integer by 1024 or by
    1024 * 1024 is exact in JavaScript, so the rationals below are the
    numbers the source rounds. *)
Definition formatBytes (bytes : Z) : string :=
  if (bytes <? 1024)%Z then decimal bytes +:+ " B"
  else if (bytes <? 1024 * 1024)%Z
       then decimal (round_half_up (inject_Z bytes / 1024)) +:+ " KB"
       else toFixed2 (inject_Z bytes / (1024 * 1024)) +:+ " MB".

(** [fileSize ? formatBytes(fileSize) : ""]: [null] and [0] are falsy. *)
Definition size_label (fileSize : option Z) : string :=
  match fileSize with
  | Some 0%Z | None => ""
  | Some bytes => formatBytes bytes
  end.

(** ** The page around the pipeline *)

(** The component together with what its handlers and effects touch outside
    the pipeline: the [isDragging] state, the [overflow] style of the
    document element, and the value [prev] captured by the cleanup that the
    scroll-lock effect returned, while that cleanup is pending. *)
Record Page : Type := MkPage {
  isDragging : bool;
  overflow : string;
  scrollRestore : option string;
  app : State;
}.

Definition page_initial (overflow0 : string) : Page :=
  MkPage false overflow0 None initial.

Definition setIsDragging (b : bool) (p : Page) : Page :=
  MkPage b (overflow p) (scrollRestore p) (app p).
Definition set_overflow (o : string) (p : Page) : Page :=
  MkPage (isDragging p) o (scrollRestore p) (app p).
Definition set_scrollRestore (r : option string) (p : Page) : Page :=
  MkPage (isDragging p) (overflow p) r (app p).
Definition with_app (f : State -> State) (p : Page) : Page :=
  MkPage (isDragging p) (overflow p) (scrollRestore p) (f (app p)).

(** [handleDragOver] and [handleDragLeave] *)
Definition handleDragOver (p : Page) : Page := setIsDragging true p.
Definition handleDragLeave (p : Page) : Page := setIsDragging false p.

(** [const file = files?.[0]; if (file) validateAndProcessFile(file);] *)
Definition process_first (files : list File) (p : Page) : Page :=
  match files with
  | file :: _ => with_app (validateAndProcessFile file) p
  | [] => p
  end.

(** [handleDrop] and [handleFileChange], on the files of the event. *)
Definition handleDrop (files : list File) (p : Page) : Page :=
  process_first files (setIsDragging false p).
Definition handleFileChange (files : list File) (p : Page) : Page :=
  process_first files p.

(** The scroll-lock effect (lines 59-68), run with the current
    [isProcessing]: it hides the overflow and returns a cleanup only when
    processing. *)
Definition lock_effect (p : Page) : Page :=
  if isProcessing (view (app p))
  then let prev := overflow p in
       set_scrollRestore (Some prev) (set_overflow "hidden" p)
  else p.

(** The cleanup it returned, if one is pending:
    [overflow = prev || ""]. *)
Definition lock_cleanup (p : Page) : Page :=
  match scrollRestore p with
  | Some prev =>
      set_scrollRestore None
        (set_overflow (match prev with EmptyString => "" | _ => prev end) p)
  | None => p
  end.

(** What React does with an effect whose dependency list is [isProcessing]
    after a turn: nothing if the value is the one of the previous render,
    otherwise the pending cleanup and then the effect again.  [was] is the
    value before the turn. *)
Definition commit (was : bool) (p : Page) : Page :=
  if mounted (env (app p))
  then if Bool.eqb was (isProcessing (view (app p)))
       then p
       else lock_effect (lock_cleanup p)
  else p.

(** Unmounting runs the cleanups in the order of the effects: the scroll
    lock's, then the mount effect's (lines 72-79), which also empties the
    overflow style. *)
Definition page_unmount (p : Page) : Page :=
  set_overflow "" (with_app unmount_cleanup (lock_cleanup p)).

Inductive PageEvent : Type :=
| Pipeline (e : Event)
| DragOver
| DragLeave
| Drop (files : list File)
| Change (files : list File).

Definition page_step (p : Page) (pe : PageEvent) : option Page :=
  let was := isProcessing (view (app p)) in
  match pe with
  | Pipeline Unmount =>
      if mounted (env (app p)) then Some (page_unmount p) else None
  | Pipeline e =>
      match step (app p) e with
      | Some s' => Some (commit was (with_app (fun _ => s') p))
      | None => None
      end
  | DragOver =>
      if mounted (env (app p)) then Some (commit was (handleDragOver p)) else None
  | DragLeave =>
      if mounted (env (app p)) then Some (commit was (handleDragLeave p)) else None
  | Drop files =>
      if mounted (env (app p)) then Some (commit was (handleDrop files p)) else None
  | Change files =>
      if mounted (env (app p)) then Some (commit was (handleFileChange files p)) else None
  end.

Inductive page_reachable (overflow0 : string) : Page -> Prop :=
| page_reachable_initial : page_reachable overflow0 (page_initial overflow0)
| page_reachable_step p pe p' :
    page_reachable overflow0 p -> page_step p pe = Some p' ->
    page_reachable overflow0 p'.

Fixpoint page_run (p : Page) (trace : list PageEvent) : option Page :=
  match trace with
  | [] => Some p
  | pe :: rest =>
      match page_step p pe with
      | Some p' => page_run p' rest
      | None => None
      end
  end.

(** The scroll-lock state of a page whose document started with the
    overflow style [overflow0]. *)
Definition lock_state (overflow0 : string) (p : Page) : Prop :=
  if mounted (env (app p))
  then if isProcessing (view (app p))
       then overflow p = "hidden" /\ scrollRestore p = Some overflow0
       else overflow p = overflow0 /\ scrollRestore p = None
  else overflow p = EmptyString.

Definition page_after (overflow0 : string) (trace : list PageEvent) : Page :=
  default (page_initial overflow0) (page_run (page_initial overflow0) trace).

(** ** Counting calls *)

Definition is_read (e : Effect) : bool :=
  match e with EReadAsDataURL _ _ => true | _ => false end.
Definition is_removeBackground (e : Effect) : bool :=
  match e with ERemoveBackground _ _ => true | _ => false end.
Definition is_create (e : Effect) : bool :=
  match e with ECreateObjectURL _ _ => true | _ => false end.

Fixpoint count_calls (f : Effect -> bool) (l : list Effect) : nat :=
  match l with
  | [] => 0
  | e :: rest => (if f e then 1 else 0) + count_calls f rest
  end.

(** In a log, newest call first: every revocation has, earlier in time, the
    creation of the URL it revokes. *)
Fixpoint revokes_follow_creates (l : list Effect) : Prop :=
  match l with
  | [] => True
  | ERevokeObjectURL u :: rest =>
      (exists b, In (ECreateObjectURL u b) rest) /\ revokes_follow_creates rest
  | _ :: rest => revokes_follow_creates rest
  end.

(** What holds of the jobs, the readers and the log in every reachable
    state. *)
Record pipeline_invariant (s : State) : Prop := {
  pinv_jobs_fresh : forall j, j ∈ jobs (env s) -> j < nextJob (env s);
  pinv_readers_fresh : forall r, r ∈ readers (env s) -> r < nextReader (env s);
  pinv_processing :
    isProcessing (view s) = true ->
    exists c d, abortControllerRef (refs s) = Some c
                /\ c ∈ jobs (env s)
                /\ image (view s) = Some d;
  pinv_reads : count_calls is_read (log (env s)) = nextReader (env s);
  pinv_jobs : count_calls is_removeBackground (log (env s)) = nextJob (env s);
  pinv_budget : nextJob (env s) + size (readers (env s)) <= nextReader (env s);
  pinv_creates : count_calls is_create (log (env s)) = nextUrl (env s);
  pinv_created :
    forall u, u ∈ live_urls s -> exists b, In (ECreateObjectURL u b) (log (env s));
  pinv_order : revokes_follow_creates (log (env s));
  pinv_balance :
    length (revocations (log (env s))) + size (blobUrlStore (env s))
    = nextUrl (env s);
}.

(** ** Tactics *)

Ltac destruct_state s :=
  let im := fresh "im" in let pi := fresh "pi" in let fn := fresh "fn" in
  let fs := fresh "fs" in let er := fresh "er" in let ip := fresh "ip" in
  let pr := fresh "pr" in let ol := fresh "ol" in let pl := fresh "pl" in
  let ac := fresh "ac" in let pu := fresh "pu" in
  let st := fresh "st" in let nu := fresh "nu" in let ab := fresh "ab" in
  let jb := fresh "jb" in let nj := fresh "nj" in let rd := fresh "rd" in
  let nr := fresh "nr" in let lg := fresh "lg" in let mt := fresh "mt" in
  destruct s as [[im pi fn fs er ip pr ol pl] [ac pu] [st nu ab jb nj rd nr lg mt]].

(** Reduce projections of explicit states, and nothing of the finite sets and
    maps inside them. *)
Ltac red_state :=
  cbn [view refs env image processedImage fileName fileSize error isProcessing
       progress originalLoaded processedLoaded abortControllerRef
       processedUrlRef blobUrlStore nextUrl aborted jobs nextJob readers
       nextReader log mounted fst snd app live_urls] in *.

(** Run the handlers on an explicit state, by value: each intermediate state
    is computed once. *)
Ltac run_handlers :=
  cbv beta iota zeta delta
    [validateAndProcessFile reader_onload reader_onerror clearImage
     handleDownload unmount_cleanup processImage_start processImage_resolved
     processImage_rejected processImage_finally progress_callback
     release_processedUrl removeBackground readAsDataURL URL_createObjectURL
     URL_revokeObjectURL abort settle_job settle_reader set_mounted emit
     set_abortControllerRef set_processedUrlRef setImage setProcessedImage
     setFileName setFileSize setError setIsProcessing setProgress
     setOriginalLoaded setProcessedLoaded with_view with_refs with_env
     view refs env image processedImage fileName fileSize error isProcessing
     progress originalLoaded processedLoaded abortControllerRef
     processedUrlRef blobUrlStore nextUrl aborted jobs nextJob readers
     nextReader log mounted fst snd live_urls] in *.

Ltac split_log :=
  first
    [ exists []; split; [reflexivity |]
    | eexists (cons _ nil); split; [reflexivity |]
    | eexists (cons _ (cons _ nil)); split; [reflexivity |]
    | eexists (cons _ (cons _ (cons _ nil))); split; [reflexivity |] ].

Ltac in_cases H :=
  simpl in H;
  repeat match type of H with
         | _ \/ _ => destruct H as [H | H]
         | False => destruct H
         end.

Ltac inv_open H :=
  let Hlive := fresh "Hlive" in let Hfresh := fresh "Hfresh" in
  let Hrf := fresh "Hrf" in let Hrd := fresh "Hrd" in
  let Hnd := fresh "Hnd" in let Hshown := fresh "Hshown" in
  destruct H as [Hlive Hfresh Hrf Hrd Hnd Hshown].

(** The goals left by a handler that released the URL [u] held in the
    reference and created none. *)
Ltac released_goal u :=
  match goal with
  | Hlive : dom ?st = {[u]}, Hfresh : (forall v, v ∈ dom ?st -> v < _),
    Hrd : (forall v, In v _ -> v ∉ dom ?st), Hnd : NoDup _ |- _ =>
      first
        [ discriminate
        | solve [auto]
        | rewrite dom_delete_L, Hlive; set_solver
        | intros ?; rewrite dom_delete_L, Hlive; set_solver
        | intros ? [<- | ?]; [apply Hfresh; set_solver | solve [auto]]
        | constructor; [| exact Hnd];
          let Hin := fresh "Hin" in
          intros Hin; apply list_elem_of_In in Hin; apply (Hrd u Hin); set_solver ]
  end.

Ltac pinv_open H :=
  destruct H as [Hjf Hrf Hproc Hreads Hjobs Hbudget Hcreates Hcreated Horder Hbal].

Ltac pinv_norm :=
  run_handlers;
  cbn [revocations count_calls revokes_follow_creates is_read
       is_removeBackground is_create length abort_effects] in *.

(** Goals about the log that follow from the same facts one call earlier. *)
Ltac older_call Hcreated :=
  let v := fresh "v" in let Hv := fresh "Hv" in
  let b := fresh "b" in let Hb := fresh "Hb" in
  intros v Hv; destruct (Hcreated v Hv) as [b Hb]; exists b; simpl; auto.

(** ** Effects of one turn *)

Lemma emitted_app (s s' : State) (new : list Effect) :
  log (env s') = new ++ log (env s) -> emitted s s' = new.
Proof.
  intros H. unfold emitted. rewrite H, length_app.
  replace (length new + length (log (env s)) - length (log (env s)))
    with (length new) by lia.
  apply take_app_length.
Qed.

(** Every turn only adds to the log, and the processor is called in the turn
    of a reader's [onload] and in no other. *)
Lemma step_effects (s : State) (e : Event) (t : State) :
  step s e = Some t ->
  exists new, log (env t) = new ++ log (env s)
    /\ forall j u, In (ERemoveBackground j u) new ->
         exists r, e = ReaderLoad r u /\ r ∈ readers (env s) /\ j = nextJob (env s).
Proof.
  destruct_state s. destruct e; unfold step; red_state;
    repeat case_decide;
    try match goal with |- (if ?m then _ else _) = _ -> _ => destruct m end;
    intros Hstep; try discriminate;
    injection Hstep as <-; run_handlers.
  - destruct (imageFileSchema_parse _ _); red_state; split_log;
      intros j' u' Hin; in_cases Hin; discriminate.
  - destruct ac; red_state; split_log; intros j' u' Hin; in_cases Hin; try discriminate;
      injection Hin as <- <-; eauto.
  - split_log; intros j' u' Hin; in_cases Hin.
  - split_log; intros j' u' Hin; in_cases Hin.
  - destruct pu; red_state; split_log; intros j' u' Hin; in_cases Hin; discriminate.
  - destruct (is_abort err); red_state; split_log; intros j' u' Hin; in_cases Hin; discriminate.
  - destruct ac, pu; red_state; split_log; intros j' u' Hin; in_cases Hin; discriminate.
  - destruct pi; red_state; split_log; intros j' u' Hin; in_cases Hin; discriminate.
  - destruct pu; red_state; split_log; intros j' u' Hin; in_cases Hin; discriminate.
Qed.

(** ** The validator *)

Lemma allowed_type_spec (t : string) :
  existsb (String.eqb t) ALLOWED_FILE_TYPES = true <->
  t = "image/png" \/ t = "image/jpeg" \/ t = "image/webp".
Proof.
  unfold ALLOWED_FILE_TYPES. simpl.
  rewrite !orb_true_iff, !String.eqb_eq. intuition discriminate.
Qed.

Lemma accepts_true_iff (f : File) :
  accepts f = true <->
  (file_type f = "image/png" \/ file_type f = "image/jpeg" \/ file_type f = "image/webp")
  /\ (file_size f <= 5242880)%Z.
Proof.
  unfold accepts, imageFileSchema_parse.
  rewrite <- allowed_type_spec.
  change 5242880%Z with MAX_FILE_SIZE.
  destruct (existsb _ _); simpl.
  - destruct (Z.leb_spec (file_size f) MAX_FILE_SIZE); simpl.
    + split; auto.
    + split; [discriminate | intros [_ ?]; lia].
  - split; [discriminate | intros [? _]; discriminate].
Qed.

Lemma accepts_false_iff (f : File) :
  accepts f = false <->
  ~ In (file_type f) ALLOWED_FILE_TYPES \/ (file_size f > 5242880)%Z.
Proof.
  rewrite <- not_true_iff_false, accepts_true_iff.
  unfold ALLOWED_FILE_TYPES. simpl. split.
  - intros H. destruct (Z_le_gt_dec (file_size f) 5242880) as [Hle|Hgt]; [left | right; exact Hgt].
    intros Hin. apply H. split; [| exact Hle]. intuition auto.
  - intros [Hty | Hsz] [Hin Hle]; [| lia].
    apply Hty. intuition auto.
Qed.

Lemma rejected_sets_only_error (f : File) (s : State) :
  accepts f = false ->
  validateAndProcessFile f s = setError (Some MSG_INVALID_FILE) s.
Proof.
  unfold accepts, validateAndProcessFile, imageFileSchema_parse.
  destruct (_ && _); [discriminate | reflexivity].
Qed.

Lemma setError_frame (m : option string) (s : State) :
  let s' := setError m s in
  error (view s') = m
  /\ image (view s') = image (view s)
  /\ processedImage (view s') = processedImage (view s)
  /\ fileName (view s') = fileName (view s)
  /\ fileSize (view s') = fileSize (view s)
  /\ isProcessing (view s') = isProcessing (view s)
  /\ progress (view s') = progress (view s)
  /\ originalLoaded (view s') = originalLoaded (view s)
  /\ processedLoaded (view s') = processedLoaded (view s)
  /\ refs s' = refs s
  /\ env s' = env s.
Proof. destruct_state s. run_handlers. repeat split. Qed.

(** C3. The validator accepts a file if and only if its declared type is one
    of image/png, image/jpeg, image/webp and its size is at most 5,242,880
    bytes.  A rejected file gets the type/size message, which is not the
    message kept for any other exception, and the rejection changes nothing
    of the state but the error message. *)
Theorem validator_accepts_iff_type_and_size (f : File) :
  (accepts f = true <->
     (file_type f = "image/png" \/ file_type f = "image/jpeg"
      \/ file_type f = "image/webp")
     /\ (file_size f <= 5242880)%Z)
  /\ (accepts f = false ->
      imageFileSchema_parse (file_type f) (file_size f) = inl ZodError
      /\ forall s, validateAndProcessFile f s = setError (Some MSG_INVALID_FILE) s
                   /\ refs (validateAndProcessFile f s) = refs s
                   /\ env (validateAndProcessFile f s) = env s)
  /\ validation_catch ZodError = MSG_INVALID_FILE
  /\ validation_catch OtherError = MSG_MALFORMED
  /\ MSG_INVALID_FILE <> MSG_MALFORMED.
Proof.
  split; [apply accepts_true_iff |].
  split.
  - intros Hrej. split.
    + unfold accepts in Hrej. unfold imageFileSchema_parse in *.
      destruct (_ && _); [discriminate | reflexivity].
    + intros s. rewrite (rejected_sets_only_error f s Hrej).
      pose proof (setError_frame (Some MSG_INVALID_FILE) s) as Hf. simpl in Hf.
      intuition.
  - repeat split. discriminate.
Qed.

Lemma validator_accepts_iff_type_and_size_witness :
  accepts huge_png = false
  /\ validateAndProcessFile huge_png initial = setError (Some MSG_INVALID_FILE) initial.
Proof.
  split; [reflexivity |].
  destruct (validator_accepts_iff_type_and_size huge_png) as (_ & Hrej & _).
  destruct (Hrej eq_refl) as [_ Hs]. apply (Hs initial).
Defined.

(** ** Rejected submissions *)

Lemma step_submit (s : State) (f : File) :
  mounted (env s) = true -> step s (Submit f) = Some (validateAndProcessFile f s).
Proof. intros H. unfold step. rewrite H. reflexivity. Qed.

Lemma rejected_submission_step (s : State) (f : File) :
  mounted (env s) = true ->
  accepts f = false ->
  step s (Submit f) = Some (setError (Some MSG_INVALID_FILE) s).
Proof.
  intros Hm Hrej. rewrite (step_submit s f Hm), (rejected_sets_only_error f s Hrej).
  reflexivity.
Qed.

(** C10. A file that fails validation, submitted while a session is
    displayed, replaces the error message and nothing else: the original
    image, the processed image, the artifact handle, the file name and the
    file size keep their values, and so does every other field. *)
Theorem rejected_submission_changes_only_error (s : State) (f : File) :
  mounted (env s) = true ->
  accepts f = false ->
  exists s', step s (Submit f) = Some s'
    /\ error (view s') = Some MSG_INVALID_FILE
    /\ image (view s') = image (view s)
    /\ processedImage (view s') = processedImage (view s)
    /\ processedUrlRef (refs s') = processedUrlRef (refs s)
    /\ fileName (view s') = fileName (view s)
    /\ fileSize (view s') = fileSize (view s)
    /\ isProcessing (view s') = isProcessing (view s)
    /\ progress (view s') = progress (view s)
    /\ originalLoaded (view s') = originalLoaded (view s)
    /\ processedLoaded (view s') = processedLoaded (view s)
    /\ refs s' = refs s
    /\ env s' = env s.
Proof.
  intros Hm Hrej. exists (setError (Some MSG_INVALID_FILE) s).
  split; [exact (rejected_submission_step s f Hm Hrej) |].
  destruct (setError_frame (Some MSG_INVALID_FILE) s)
    as (He & Him & Hpi & Hfn & Hfs & Hip & Hpr & Hol & Hpl & Hr & Hen).
  rewrite Hr. repeat split; assumption.
Qed.

Lemma rejected_submission_changes_only_error_witness :
  exists s', step (state_after trace_success) (Submit huge_png) = Some s'
    /\ error (view s') = Some MSG_INVALID_FILE
    /\ fileName (view s') = Some "photo.jpg"
    /\ processedImage (view s') = Some 0.
Proof.
  destruct (rejected_submission_changes_only_error
              (state_after trace_success) huge_png eq_refl eq_refl)
    as (s' & Hstep & He & _ & Hpi & _ & Hfn & _).
  exists s'. split; [exact Hstep |]. split; [exact He |].
  split; [rewrite Hfn | rewrite Hpi]; reflexivity.
Defined.

(** C4. A file whose type is not PNG, JPEG or WEBP, or whose size exceeds
    5 MiB, yields the invalid-file message and creates no job: nothing is
    called (no reader is started, the processor is not invoked), the pending
    readers and jobs are the same, and progress and the processing flag are
    untouched, so progress stays at 0 and the status does not become
    running. *)
Theorem invalid_file_creates_no_job (s : State) (f : File) :
  mounted (env s) = true ->
  ~ In (file_type f) ALLOWED_FILE_TYPES \/ (file_size f > 5242880)%Z ->
  exists s', step s (Submit f) = Some s'
    /\ error (view s') = Some MSG_INVALID_FILE
    /\ emitted s s' = []
    /\ readers (env s') = readers (env s)
    /\ nextReader (env s') = nextReader (env s)
    /\ jobs (env s') = jobs (env s)
    /\ nextJob (env s') = nextJob (env s)
    /\ progress (view s') = progress (view s)
    /\ isProcessing (view s') = isProcessing (view s)
    /\ (progress (view s) = Fin 0 -> progress (view s') = Fin 0)
    /\ (isProcessing (view s) = false -> isProcessing (view s') = false).
Proof.
  intros Hm Hbad. apply accepts_false_iff in Hbad.
  exists (setError (Some MSG_INVALID_FILE) s).
  split; [exact (rejected_submission_step s f Hm Hbad) |].
  destruct (setError_frame (Some MSG_INVALID_FILE) s)
    as (He & _ & _ & _ & _ & Hip & Hpr & _ & _ & _ & Hen).
  split; [exact He |].
  split; [apply emitted_app; rewrite Hen; reflexivity |].
  rewrite Hen, Hip, Hpr. repeat split; auto.
Qed.

Lemma invalid_file_creates_no_job_witness :
  exists s', step initial (Submit huge_png) = Some s'
    /\ error (view s') = Some MSG_INVALID_FILE
    /\ emitted initial s' = []
    /\ jobs (env s') = ∅
    /\ progress (view s') = Fin 0
    /\ isProcessing (view s') = false.
Proof.
  destruct (invalid_file_creates_no_job initial huge_png eq_refl)
    as (s' & Hstep & He & Hem & _ & _ & Hj & _ & _ & _ & Hpr & Hip).
  { right. reflexivity. }
  exists s'. repeat split; try assumption.
  - apply Hpr. reflexivity.
  - apply Hip. reflexivity.
Defined.

(** ** Read failures *)

(** C9. When the read of an accepted file fails, the read-failure message is
    shown, which is neither of the validation messages.  The failure ends
    the attempt: nothing is called, no job is added, the reader is settled
    and its [onload] cannot fire any more.  In any turn at all, the
    processor is invoked only by the [onload] of a pending reader. *)
Theorem read_failure_is_terminal (s : State) (r : nat) :
  r ∈ readers (env s) ->
  exists s', step s (ReaderError r) = Some s'
    /\ error (view s') = Some MSG_READ_FAILED
    /\ MSG_READ_FAILED <> MSG_INVALID_FILE
    /\ MSG_READ_FAILED <> MSG_MALFORMED
    /\ emitted s s' = []
    /\ jobs (env s') = jobs (env s)
    /\ nextJob (env s') = nextJob (env s)
    /\ isProcessing (view s') = isProcessing (view s)
    /\ (r ∉ readers (env s'))
    /\ (forall dataUrl, step s' (ReaderLoad r dataUrl) = None)
    /\ (forall e t j u,
          step s e = Some t -> In (ERemoveBackground j u) (emitted s t) ->
          exists r', e = ReaderLoad r' u /\ r' ∈ readers (env s)).
Proof.
  intros Hr. exists (reader_onerror (settle_reader r s)).
  split; [unfold step; rewrite decide_True by exact Hr; reflexivity |].
  assert (Hgone : r ∉ readers (env (reader_onerror (settle_reader r s)))).
  { destruct_state s. run_handlers. set_solver. }
  repeat split; try discriminate.
  - destruct_state s. reflexivity.
  - apply emitted_app. destruct_state s. reflexivity.
  - destruct_state s. reflexivity.
  - destruct_state s. reflexivity.
  - destruct_state s. reflexivity.
  - exact Hgone.
  - intros d. unfold step. rewrite decide_False by exact Hgone. reflexivity.
  - intros e t j u Hstep Hin.
    destruct (step_effects s e t Hstep) as (new & Hlog & Honly).
    rewrite (emitted_app s t new Hlog) in Hin.
    destruct (Honly j u Hin) as (r' & He & Hr' & _). eauto.
Qed.

Lemma read_failure_is_terminal_witness :
  0 ∈ readers (env (state_after trace_reading))
  /\ exists s', step (state_after trace_reading) (ReaderError 0) = Some s'
       /\ error (view s') = Some MSG_READ_FAILED
       /\ jobs (env s') = jobs (env (state_after trace_reading)).
Proof.
  assert (H : 0 ∈ readers (env (state_after trace_reading))).
  { vm_compute. set_solver. }
  split; [exact H |].
  destruct (read_failure_is_terminal (state_after trace_reading) 0 H)
    as (s' & Hstep & He & _ & _ & _ & Hj & _).
  exists s'. auto.
Defined.

(** ** The processor adapter *)

Lemma emitted_resolved (s : State) (j : nat) (b : Blob) :
  emitted s (processImage_resolved b (settle_job j s)) =
  ECreateObjectURL (nextUrl (env s)) b :: revoke_effects (processedUrlRef (refs s)).
Proof.
  apply emitted_app. destruct_state s. run_handlers. destruct pu; reflexivity.
Qed.

Lemma emitted_rejected (s : State) (j : nat) (err : Thrown) :
  emitted s (processImage_rejected err (settle_job j s)) =
  if is_abort err then [] else [EConsoleError].
Proof.
  apply emitted_app. destruct_state s. run_handlers.
  destruct (is_abort err); reflexivity.
Qed.

Lemma finally_resets (s : State) :
  progress (view (processImage_finally s)) = Fin 0
  /\ isProcessing (view (processImage_finally s)) = false
  /\ abortControllerRef (refs (processImage_finally s)) = None.
Proof. destruct_state s. run_handlers. repeat split. Qed.

Lemma resolved_view (s : State) (j : nat) (b : Blob) :
  let s' := processImage_resolved b (settle_job j s) in
  processedImage (view s') = Some (nextUrl (env s))
  /\ processedUrlRef (refs s') = Some (nextUrl (env s))
  /\ blobUrlStore (env s') !! nextUrl (env s) = Some b
  /\ error (view s') = error (view s)
  /\ progress (view s') = Fin 0
  /\ isProcessing (view s') = false.
Proof.
  destruct_state s. run_handlers. destruct pu; run_handlers;
    repeat split; apply lookup_insert_eq.
Qed.

Lemma rejected_view (s : State) (j : nat) (err : Thrown) :
  let s' := processImage_rejected err (settle_job j s) in
  error (view s') =
    (if is_abort err then error (view s) else Some (processing_failure_message err))
  /\ processedImage (view s') = processedImage (view s)
  /\ blobUrlStore (env s') = blobUrlStore (env s)
  /\ progress (view s') = Fin 0
  /\ isProcessing (view s') = false.
Proof.
  destruct_state s. run_handlers. destruct (is_abort err); repeat split.
Qed.

Lemma failure_message_prefix (err : Thrown) :
  String.prefix "Failed to remove background" (processing_failure_message err) = true.
Proof. unfold processing_failure_message. destruct (isError err); reflexivity. Qed.

(** C5. A pending invocation of the processor can settle, and however it
    settles exactly one of three things happens: an artifact is produced, a
    processing failure is surfaced (with the underlying message when the
    thrown value is an [Error]), or the invocation is silently cancelled.  In
    each case progress is back at 0 and the processing flag is off; an
    [AbortError] leaves the error message as it was and logs nothing. *)
Theorem processor_settles_in_exactly_one_way (s : State) (j : nat) (o : Settlement) :
  j ∈ jobs (env s) ->
  exists s', step s (settle_event j o) = Some s'
    /\ progress (view s') = Fin 0
    /\ isProcessing (view s') = false
    /\ ((artifact_produced s s' /\ ~ failure_surfaced s s' /\ ~ silently_cancelled s s')
        \/ (~ artifact_produced s s' /\ failure_surfaced s s' /\ ~ silently_cancelled s s')
        \/ (~ artifact_produced s s' /\ ~ failure_surfaced s s' /\ silently_cancelled s s'))
    /\ (forall blob, o = Fulfilled blob -> artifact_produced s s')
    /\ (forall err, o = Threw err -> is_abort err = true ->
          silently_cancelled s s' /\ error (view s') = error (view s))
    /\ (forall err, o = Threw err -> is_abort err = false ->
          failure_surfaced s s'
          /\ error (view s') = Some (processing_failure_message err)).
Proof.
  intros Hj. destruct o as [blob | err].
  - exists (processImage_resolved blob (settle_job j s)).
    split; [unfold settle_event, step; rewrite decide_True by exact Hj; reflexivity |].
    destruct (resolved_view s j blob) as (Hpi & _ & Hst & _ & Hpr & Hip).
    pose proof (emitted_resolved s j blob) as Hem.
    assert (Hprod : artifact_produced s (processImage_resolved blob (settle_job j s))).
    { exists (nextUrl (env s)), blob. rewrite Hem. split; [left; reflexivity | auto]. }
    split; [exact Hpr |]. split; [exact Hip |]. split.
    + left. split; [exact Hprod |]. split.
      * intros [Hin _]. rewrite Hem in Hin.
        destruct (processedUrlRef (refs s)); in_cases Hin; discriminate.
      * intros [Hnil _]. rewrite Hem in Hnil. discriminate.
    + split; [intros; exact Hprod |]. split; intros ? [=].
  - exists (processImage_rejected err (settle_job j s)).
    split; [unfold settle_event, step; rewrite decide_True by exact Hj; reflexivity |].
    destruct (rejected_view s j err) as (Her & Hpi & Hst & Hpr & Hip).
    pose proof (emitted_rejected s j err) as Hem.
    split; [exact Hpr |]. split; [exact Hip |].
    destruct (is_abort err) eqn:Hab.
    + assert (Hc : silently_cancelled s (processImage_rejected err (settle_job j s))).
      { repeat split; assumption. }
      split; [| split; [intros ? [=] | split]].
      * right. right. split; [| split; [| exact Hc]].
        -- intros (u & b & Hin & _). rewrite Hem in Hin. destruct Hin.
        -- intros [Hin _]. rewrite Hem in Hin. destruct Hin.
      * intros ? [= <-] _. split; [exact Hc | exact Her].
      * intros ? [= <-] Habs. rewrite Hab in Habs. discriminate.
    + assert (Hf : failure_surfaced s (processImage_rejected err (settle_job j s))).
      { split; [rewrite Hem; left; reflexivity |].
        exists (processing_failure_message err).
        split; [exact Her | apply failure_message_prefix]. }
      split; [| split; [intros ? [=] | split]].
      * right. left. split; [| split; [exact Hf |]].
        -- intros (u & b & Hin & _). rewrite Hem in Hin. in_cases Hin. discriminate.
        -- intros [Hnil _]. rewrite Hem in Hnil. discriminate.
      * intros ? [= <-] Habs. rewrite Hab in Habs. discriminate.
      * intros ? [= <-] _. split; [exact Hf | exact Her].
Qed.

Lemma processor_settles_in_exactly_one_way_witness :
  0 ∈ jobs (env (state_after trace_running))
  /\ exists s', step (state_after trace_running) (Resolved 0 "photo-cutout") = Some s'
       /\ progress (view s') = Fin 0
       /\ isProcessing (view s') = false
       /\ artifact_produced (state_after trace_running) s'.
Proof.
  assert (H : 0 ∈ jobs (env (state_after trace_running))).
  { vm_compute. set_solver. }
  split; [exact H |].
  destruct (processor_settles_in_exactly_one_way
              (state_after trace_running) 0 (Fulfilled "photo-cutout") H)
    as (s' & Hstep & Hpr & Hip & _ & Hprod & _).
  exists s'. repeat split; try assumption. apply (Hprod "photo-cutout"). reflexivity.
Defined.

(** ** Clearing *)

Lemma emitted_clear (s : State) :
  emitted s (clearImage s) =
  EResetFileInput :: revoke_effects (processedUrlRef (refs s))
                  ++ abort_effects (abortControllerRef (refs s)).
Proof.
  apply emitted_app. destruct_state s. run_handlers.
  destruct ac, pu; reflexivity.
Qed.

Lemma clear_view (s : State) :
  view (clearImage s) = MkView None None None None None false (Fin 0) false false
  /\ processedUrlRef (refs (clearImage s)) = None.
Proof. destruct_state s. run_handlers. destruct ac, pu; split; reflexivity. Qed.

Lemma clear_store (s : State) :
  blobUrlStore (env (clearImage s)) =
  match processedUrlRef (refs s) with
  | Some u => delete u (blobUrlStore (env s))
  | None => blobUrlStore (env s)
  end.
Proof. destruct_state s. run_handlers. destruct ac, pu; reflexivity. Qed.

(** C8. Clearing after a successful run revokes the artifact's object URL,
    which is then gone from the blob URL store and from the reference, and
    resets the whole view: image, processed image, file name, file size and
    error absent, not processing, progress 0. *)
Theorem clear_releases_and_resets (s : State) (u : ObjectUrl) :
  mounted (env s) = true ->
  processedUrlRef (refs s) = Some u ->
  exists s', step s Clear = Some s'
    /\ In (ERevokeObjectURL u) (emitted s s')
    /\ blobUrlStore (env s') !! u = None
    /\ processedUrlRef (refs s') = None
    /\ image (view s') = None
    /\ processedImage (view s') = None
    /\ fileName (view s') = None
    /\ fileSize (view s') = None
    /\ error (view s') = None
    /\ isProcessing (view s') = false
    /\ progress (view s') = Fin 0.
Proof.
  intros Hm Hu. exists (clearImage s).
  split; [unfold step; rewrite Hm; reflexivity |].
  destruct (clear_view s) as [Hv Hr].
  rewrite emitted_clear, clear_store, Hu, Hv, Hr.
  split; [right; left; reflexivity |].
  split; [apply lookup_delete_eq |].
  repeat split.
Qed.

Lemma clear_releases_and_resets_witness :
  exists s', step (state_after trace_success) Clear = Some s'
    /\ In (ERevokeObjectURL 0) (emitted (state_after trace_success) s')
    /\ blobUrlStore (env s') !! 0 = None
    /\ processedImage (view s') = None
    /\ progress (view s') = Fin 0.
Proof.
  destruct (clear_releases_and_resets (state_after trace_success) 0 eq_refl eq_refl)
    as (s' & Hstep & Hrev & Hst & _ & _ & Hpi & _ & _ & _ & _ & Hpr).
  exists s'. auto.
Defined.

(** ** The object URL invariant *)

Lemma run_reachable (trace : list Event) (s t : State) :
  reachable s -> run s trace = Some t -> reachable t.
Proof.
  revert s. induction trace as [| e trace IH]; intros s Hs Hrun.
  - injection Hrun as <-. exact Hs.
  - cbn [run] in Hrun. destruct (step s e) as [s' |] eqn:Hstep; [| discriminate].
    apply (IH s'); [| exact Hrun]. exact (reachable_step s e s' Hs Hstep).
Qed.

Lemma state_after_reachable (trace : list Event) : reachable (state_after trace).
Proof.
  unfold state_after. destruct (run initial trace) as [t |] eqn:Hrun.
  - exact (run_reachable trace initial t reachable_initial Hrun).
  - exact reachable_initial.
Qed.

Lemma url_invariant_initial : url_invariant initial.
Proof.
  constructor; unfold initial; run_handlers; cbn [revocations].
  - apply dom_empty_L.
  - intros u. rewrite dom_empty_L. set_solver.
  - intros u [].
  - intros u [].
  - constructor.
  - discriminate.
Qed.

Lemma url_invariant_step (s : State) (e : Event) (t : State) :
  url_invariant s -> step s e = Some t -> url_invariant t.
Proof.
  intros Hinv. destruct_state s. destruct e; unfold step; red_state;
    repeat case_decide;
    try match goal with |- (if ?m then _ else _) = _ -> _ => destruct m end;
    intros Hstep; try discriminate; injection Hstep as <-; inv_open Hinv.
  - (* Submit *)
    unfold validateAndProcessFile. destruct (imageFileSchema_parse _ _);
      constructor; run_handlers; cbn [revocations] in *; auto; discriminate.
  - (* ReaderLoad *)
    destruct ac; constructor; run_handlers; cbn [revocations] in *; auto.
  - (* ReaderError *)
    constructor; run_handlers; cbn [revocations] in *; auto.
  - (* Progress *)
    constructor; run_handlers; cbn [revocations] in *; auto.
  - (* Resolved *)
    run_handlers. destruct pu as [u |]; run_handlers;
      constructor; run_handlers; cbn [revocations] in *.
    + rewrite dom_insert_L, dom_delete_L, Hlive. set_solver.
    + intros v. rewrite dom_insert_L, dom_delete_L, Hlive. intros Hv.
      assert (v = nu) by set_solver. lia.
    + intros v [<- | Hv]; [| specialize (Hrf v Hv); lia].
      assert (u < nu) by (apply Hfresh; set_solver). lia.
    + intros v Hv. rewrite dom_insert_L, dom_delete_L, Hlive.
      assert (v < nu).
      { destruct Hv as [<- | Hv]; [apply Hfresh; set_solver | auto]. }
      assert (v <> nu) by lia. set_solver.
    + constructor; [| exact Hnd]. intros Hin. apply list_elem_of_In in Hin.
      apply (Hrd u Hin). set_solver.
    + auto.
    + rewrite dom_insert_L, Hlive. set_solver.
    + intros v. rewrite dom_insert_L, Hlive. intros Hv.
      assert (v = nu) by set_solver. lia.
    + intros v Hv. specialize (Hrf v Hv). lia.
    + intros v Hv. rewrite dom_insert_L, Hlive.
      specialize (Hrf v Hv). assert (v <> nu) by lia. set_solver.
    + exact Hnd.
    + auto.
  - (* Rejected *)
    run_handlers. destruct (is_abort err);
      constructor; run_handlers; cbn [revocations] in *; auto.
  - (* Clear *)
    run_handlers. destruct ac, pu as [u |]; run_handlers;
      constructor; run_handlers; cbn [revocations] in *;
      first [released_goal u | solve [auto] | discriminate].
  - (* Download *)
    run_handlers. destruct pi;
      constructor; run_handlers; cbn [revocations] in *; auto.
  - (* Unmount *)
    run_handlers. destruct pu as [u |]; run_handlers;
      constructor; run_handlers; cbn [revocations] in *;
      first [released_goal u | solve [auto] | discriminate].
Qed.

Lemma reachable_url_invariant (s : State) : reachable s -> url_invariant s.
Proof.
  induction 1 as [| s e s' _ IH Hstep].
  - exact url_invariant_initial.
  - exact (url_invariant_step s e s' IH Hstep).
Qed.

Lemma live_size (s : State) : url_invariant s -> size (blobUrlStore (env s)) <= 1.
Proof.
  intros [Hlive _ _ _ _ _]. rewrite <- size_dom. fold (live_urls s). rewrite Hlive.
  destruct (processedUrlRef (refs s)).
  - rewrite size_singleton. lia.
  - rewrite size_empty. lia.
Qed.

Lemma release_idempotent (s : State) :
  release_processedUrl (release_processedUrl s) = release_processedUrl s.
Proof. destruct_state s. destruct pu; reflexivity. Qed.

Lemma release_empties (s : State) :
  url_invariant s ->
  live_urls (release_processedUrl s) = ∅
  /\ processedUrlRef (refs (release_processedUrl s)) = None.
Proof.
  intros Hinv. destruct_state s. inv_open Hinv. run_handlers.
  destruct pu as [u |]; run_handlers; split; try reflexivity.
  - rewrite dom_delete_L, Hlive. set_solver.
  - exact Hlive.
Qed.

Lemma clear_live (s : State) :
  live_urls (clearImage s) = live_urls (release_processedUrl s).
Proof. destruct_state s. run_handlers. destruct ac, pu; reflexivity. Qed.

Lemma unmount_live (s : State) :
  live_urls (unmount_cleanup s) = live_urls (release_processedUrl s)
  /\ processedUrlRef (refs (unmount_cleanup s))
     = processedUrlRef (refs (release_processedUrl s)).
Proof. destruct_state s. run_handlers. destruct pu; split; reflexivity. Qed.

(** C2. In every reachable state at most one object URL is live, and it is
    the one the reference holds.  When a job delivers a new artifact, the
    previous URL is revoked first and the new URL, never seen before, is
    then the only live one.  Clearing and unmounting leave no URL live.
    Releasing twice is releasing once, and no URL is ever revoked twice. *)
Theorem at_most_one_live_artifact (s : State) :
  reachable s ->
  size (blobUrlStore (env s)) <= 1
  /\ live_urls s = match processedUrlRef (refs s) with
                   | Some u => {[u]}
                   | None => ∅
                   end
  /\ (forall j b s',
        step s (Resolved j b) = Some s' ->
        emitted s s' = ECreateObjectURL (nextUrl (env s)) b
                         :: revoke_effects (processedUrlRef (refs s))
        /\ live_urls s' = {[nextUrl (env s)]}
        /\ nextUrl (env s) ∉ live_urls s
        /\ ~ In (nextUrl (env s)) (revocations (log (env s))))
  /\ (live_urls (clearImage s) = ∅ /\ processedUrlRef (refs (clearImage s)) = None)
  /\ (live_urls (unmount_cleanup s) = ∅
      /\ processedUrlRef (refs (unmount_cleanup s)) = None)
  /\ release_processedUrl (release_processedUrl s) = release_processedUrl s
  /\ NoDup (revocations (log (env s))).
Proof.
  intros Hreach. pose proof (reachable_url_invariant s Hreach) as Hinv.
  split; [exact (live_size s Hinv) |].
  split; [exact (inv_live s Hinv) |].
  split.
  - intros j b s' Hstep.
    pose proof (reachable_step s _ s' Hreach Hstep) as Hreach'.
    pose proof (reachable_url_invariant s' Hreach') as Hinv'.
    unfold step in Hstep. case_decide; [| discriminate]. injection Hstep as <-.
    destruct (resolved_view s j b) as (_ & Href & _).
    split; [apply emitted_resolved |].
    split; [rewrite (inv_live _ Hinv'), Href; reflexivity |].
    split.
    + intros Hin. pose proof (inv_fresh s Hinv _ Hin). lia.
    + intros Hin. pose proof (inv_revoked_fresh s Hinv _ Hin). lia.
  - destruct (release_empties s Hinv) as [Hempty Hnone].
    split; [split |].
    + rewrite clear_live. exact Hempty.
    + apply clear_view.
    + destruct (unmount_live s) as [Hl Hr]. rewrite Hl, Hr.
      split; [split; assumption |].
      split; [apply release_idempotent | exact (inv_revoked_once s Hinv)].
Qed.

Lemma at_most_one_live_artifact_witness :
  size (blobUrlStore (env (state_after trace_superseded))) <= 1
  /\ live_urls (state_after trace_superseded) = {[1]}
  /\ NoDup (revocations (log (env (state_after trace_superseded)))).
Proof.
  destruct (at_most_one_live_artifact (state_after trace_superseded)
              (state_after_reachable trace_superseded))
    as (Hsize & Hlive & _ & _ & _ & _ & Hnd).
  split; [exact Hsize |]. split; [| exact Hnd].
  rewrite Hlive. reflexivity.
Defined.

(** ** Download *)

Lemma append_nil (s : string) : EmptyString +:+ s = s.
Proof. reflexivity. Qed.

Lemma append_cons (c : ascii) (a b : string) :
  String c a +:+ b = String c (a +:+ b).
Proof. reflexivity. Qed.

Lemma all_ext_chars_dot (x y : string) :
  all_ext_chars (x +:+ String "."%char y) = false.
Proof.
  induction x as [| c x IH].
  - reflexivity.
  - rewrite append_cons. cbn [all_ext_chars]. rewrite IH. apply andb_false_r.
Qed.

Lemma strip_extension_last (base ext : string) :
  ext <> EmptyString ->
  all_ext_chars ext = true ->
  strip_extension (base +:+ String "."%char ext) = base.
Proof.
  intros Hne Hext. induction base as [| c base IH].
  - destruct ext as [| d ext]; [congruence |].
    rewrite append_nil. cbn [strip_extension ext_matches_here].
    rewrite Hext. reflexivity.
  - rewrite append_cons. cbn [strip_extension]. rewrite IH.
    assert (Hno : ext_matches_here (String c (base +:+ String "."%char ext)) = false).
    { unfold ext_matches_here.
      destruct (base +:+ String "."%char ext) as [| d rest] eqn:Heq; [reflexivity |].
      rewrite <- Heq, all_ext_chars_dot. apply andb_false_r. }
    rewrite Hno. reflexivity.
Qed.

Lemma ext_matches_here_inv (s : string) :
  ext_matches_here s = true ->
  exists ext, s = String "."%char ext /\ ext <> EmptyString /\ all_ext_chars ext = true.
Proof.
  destruct s as [| c [| d rest]]; try discriminate.
  unfold ext_matches_here. intros H. apply andb_true_iff in H as [Hc He].
  apply Ascii.eqb_eq in Hc. subst c.
  exists (String d rest). repeat split; [discriminate | exact He].
Qed.

Lemma strip_extension_none (name : string) :
  (forall base ext, ext <> EmptyString -> all_ext_chars ext = true ->
                    name <> base +:+ String "."%char ext) ->
  strip_extension name = name.
Proof.
  induction name as [| c name IH]; intros Hno; [reflexivity |].
  cbn [strip_extension].
  destruct (ext_matches_here (String c name)) eqn:Hm.
  - apply ext_matches_here_inv in Hm as (ext & Heq & Hne & Hext).
    exfalso. apply (Hno EmptyString ext Hne Hext). exact Heq.
  - f_equal. apply IH. intros base ext Hne Hext Heq.
    apply (Hno (String c base) ext Hne Hext). rewrite append_cons, Heq. reflexivity.
Qed.

Lemma downloadName_named (name : string) :
  name <> EmptyString ->
  downloadName (Some name) = strip_extension name +:+ ".png".
Proof. destruct name; [congruence | reflexivity]. Qed.

Lemma shown_artifact_is_live (s : State) (href : ObjectUrl) :
  url_invariant s ->
  mounted (env s) = true ->
  processedImage (view s) = Some href ->
  exists blob, blobUrlStore (env s) !! href = Some blob.
Proof.
  intros Hinv Hm Hpi.
  pose proof (inv_shown s Hinv Hm href Hpi) as Href.
  pose proof (inv_live s Hinv) as Hlive. rewrite Href in Hlive.
  assert (Hin : href ∈ dom (blobUrlStore (env s))).
  { fold (live_urls s). rewrite Hlive. set_solver. }
  apply elem_of_dom in Hin. exact Hin.
Qed.

(** C7, as the code has it.  With a processed image [href], download
    clicks a link to [href], whose blob is live in the store, and changes
    nothing else.  When a non-empty file name is held, the link's file name
    is that name with its final extension removed and [.png] appended, where
    the final extension is the last dot together with the non-empty run of
    characters after it; a name without one is kept whole.  When no file
    name is held, or an empty one, the link's file name is
    [background-removed.png].  With no processed image, download does
    nothing at all. *)
Theorem download_offers_png_named_after_original (s : State) :
  reachable s ->
  mounted (env s) = true ->
  (forall href,
      processedImage (view s) = Some href ->
      exists s', step s Download = Some s'
        /\ emitted s s' = [EDownload href (downloadName (fileName (view s)))]
        /\ (exists blob, blobUrlStore (env s) !! href = Some blob)
        /\ view s' = view s /\ refs s' = refs s
        /\ blobUrlStore (env s') = blobUrlStore (env s)
        /\ (forall name,
              fileName (view s) = Some name -> name <> EmptyString ->
              downloadName (fileName (view s)) = strip_extension name +:+ ".png"
              /\ (forall base ext,
                    name = base +:+ String "."%char ext ->
                    ext <> EmptyString -> all_ext_chars ext = true ->
                    downloadName (fileName (view s)) = base +:+ ".png")
              /\ ((forall base ext,
                      ext <> EmptyString -> all_ext_chars ext = true ->
                      name <> base +:+ String "."%char ext) ->
                  downloadName (fileName (view s)) = name +:+ ".png"))
        /\ (fileName (view s) = None \/ fileName (view s) = Some EmptyString ->
            downloadName (fileName (view s)) = "background-removed.png"))
  /\ (processedImage (view s) = None ->
      step s Download = Some s /\ handleDownload s = s).
Proof.
  intros Hreach Hm. split.
  - intros href Hpi. exists (handleDownload s).
    split; [unfold step; rewrite Hm; reflexivity |].
    split.
    { apply emitted_app. unfold handleDownload. rewrite Hpi.
      destruct_state s. reflexivity. }
    split.
    { exact (shown_artifact_is_live s href (reachable_url_invariant s Hreach) Hm Hpi). }
    assert (Hframe : view (handleDownload s) = view s
                     /\ refs (handleDownload s) = refs s
                     /\ blobUrlStore (env (handleDownload s)) = blobUrlStore (env s)).
    { unfold handleDownload. rewrite Hpi. destruct_state s. repeat split. }
    destruct Hframe as (Hv & Hr & Hst).
    split; [exact Hv |]. split; [exact Hr |]. split; [exact Hst |]. split.
    + intros name Hfn Hne. rewrite Hfn, (downloadName_named name Hne).
      split; [reflexivity |]. split.
      * intros base ext -> Hext Hall.
        rewrite (strip_extension_last base ext Hext Hall). reflexivity.
      * intros Hno. rewrite (strip_extension_none name Hno). reflexivity.
    + intros [-> | ->]; reflexivity.
  - intros Hnone. unfold step, handleDownload. rewrite Hm, Hnone. split; reflexivity.
Qed.

Lemma download_offers_png_named_after_original_witness :
  exists s', step (state_after trace_success) Download = Some s'
    /\ emitted (state_after trace_success) s' = [EDownload 0 "photo.png"].
Proof.
  destruct (download_offers_png_named_after_original
              (state_after trace_success)
              (state_after_reachable trace_success) eq_refl) as [Hlive _].
  destruct (Hlive 0 eq_refl) as (s' & Hstep & Hem & _).
  exists s'. split; [exact Hstep | exact Hem].
Defined.

(** C7, as claimed, fails where a processed image is shown and no file
    name is held: after a clear during the job of [photo.jpg], the job's
    late result is shown and offered as [background-removed.png], not as
    [photo.png]. *)
Lemma download_without_file_name_uses_fallback :
  ~ (forall s href,
        reachable s ->
        mounted (env s) = true ->
        processedImage (view s) = Some href ->
        exists name s',
          fileName (view s) = Some name
          /\ step s Download = Some s'
          /\ emitted s s' = [EDownload href (strip_extension name +:+ ".png")])
  /\ processedImage (view (state_after trace_cleared_late)) = Some 0
  /\ fileName (view (state_after trace_cleared_late)) = None
  /\ handleDownload (state_after trace_cleared_late)
     = emit (EDownload 0 "background-removed.png") (state_after trace_cleared_late).
Proof.
  assert (Hnone : fileName (view (state_after trace_cleared_late)) = None)
    by (vm_compute; reflexivity).
  assert (Hshown : processedImage (view (state_after trace_cleared_late)) = Some 0)
    by (vm_compute; reflexivity).
  split; [| split; [exact Hshown | split; [exact Hnone |]]].
  - intros Hclaim.
    destruct (Hclaim (state_after trace_cleared_late) 0
                (state_after_reachable trace_cleared_late) eq_refl Hshown)
      as (name & s' & Hname & _).
    rewrite Hnone in Hname. discriminate.
  - unfold handleDownload. rewrite Hshown, Hnone. reflexivity.
Qed.

(** ** Progress *)

Lemma nearest_even_cases (y : Q) :
  nearest_even y = Qfloor y
  \/ (nearest_even y = (Qfloor y + 1)%Z /\ (inject_Z (Qfloor y) < y)%Q).
Proof.
  unfold nearest_even.
  destruct (y - inject_Z (Qfloor y) ?= 1 # 2)%Q eqn:Hcmp.
  - apply Qeq_alt in Hcmp. destruct (Z.even (Qfloor y)); [left; reflexivity |].
    right. split; [reflexivity |].
    assert (H : (0 < y - inject_Z (Qfloor y))%Q) by (rewrite Hcmp; reflexivity).
    apply (Qplus_lt_l _ _ (inject_Z (Qfloor y))) in H. ring_simplify in H. exact H.
  - left. reflexivity.
  - apply Qgt_alt in Hcmp. right. split; [reflexivity |].
    assert (H : (0 < y - inject_Z (Qfloor y))%Q).
    { apply Qlt_trans with (1 # 2); [reflexivity | exact Hcmp]. }
    apply (Qplus_lt_l _ _ (inject_Z (Qfloor y))) in H. ring_simplify in H. exact H.
Qed.

Lemma nearest_even_le (y : Q) (K : Z) :
  (y <= inject_Z K)%Q -> (nearest_even y <= K)%Z.
Proof.
  intros Hy. pose proof (Qfloor_le y) as Hf.
  destruct (nearest_even_cases y) as [-> | [-> Hlt]].
  - rewrite Zle_Qle. apply Qle_trans with y; assumption.
  - assert (H : (Qfloor y < K)%Z).
    { rewrite Zlt_Qlt. apply Qlt_le_trans with y; assumption. }
    lia.
Qed.

Lemma nearest_even_nonneg (y : Q) : (0 <= y)%Q -> (0 <= nearest_even y)%Z.
Proof.
  intros Hy. assert (H : (0 <= Qfloor y)%Z).
  { change 0%Z with (Qfloor 0). apply Qfloor_resp_le. exact Hy. }
  destruct (nearest_even_cases y) as [-> | [-> _]]; lia.
Qed.

Lemma pow2_nonpos (k : Z) :
  (0 <= k)%Z -> (pow2 (- k) == 1 / inject_Z (2 ^ k))%Q.
Proof.
  intros Hk. unfold pow2.
  rewrite Z.opp_involutive, (Z.max_r (- k) 0), (Z.max_l k 0) by lia.
  assert (Hpos : (0 < 2 ^ k)%Z) by (apply Z.pow_pos_nonneg; lia).
  unfold Qeq, Qdiv, Qmult, Qinv, inject_Z. cbn [Qnum Qden].
  destruct (2 ^ k)%Z as [| p | p] eqn:Hp; try lia.
  cbn. reflexivity.
Qed.

Lemma exponent_range (a : Q) (B : Z) :
  (0 <= a)%Q -> (a <= inject_Z B)%Q -> (B < 2 ^ 53)%Z ->
  (-1074 <= exponent a <= 0)%Z.
Proof.
  intros Ha HB Hb. unfold exponent.
  set (s := Qfloor (a * inject_Z (2 ^ 1074))).
  assert (Hs : (s < 2 ^ 1127)%Z).
  { assert (Hpos : (0 < 2 ^ 1074)%Z) by (apply Z.pow_pos_nonneg; lia).
    assert (Hle : (s <= B * 2 ^ 1074)%Z).
    { rewrite Zle_Qle. apply Qle_trans with (a * inject_Z (2 ^ 1074))%Q.
      - apply Qfloor_le.
      - rewrite inject_Z_mult. apply Qmult_le_compat_r; [exact HB |].
        change 0%Q with (inject_Z 0). rewrite <- Zle_Qle. lia. }
    replace (2 ^ 1127)%Z with (2 ^ 53 * 2 ^ 1074)%Z
      by (rewrite <- Z.pow_add_r by lia; reflexivity).
    apply Z.le_lt_trans with (B * 2 ^ 1074)%Z; [exact Hle |].
    apply Z.mul_lt_mono_pos_r; assumption. }
  assert (Hlog : (Z.log2 s <= 1126)%Z).
  { destruct (Z.le_gt_cases s 0) as [H0 | H0].
    - rewrite (Z.log2_nonpos s H0). lia.
    - apply Z.log2_lt_pow2 in Hs; [lia | exact H0]. }
  lia.
Qed.

Lemma pow2_scale (k : Z) :
  (0 <= k)%Z ->
  (0 < pow2 (- k))%Q /\ (inject_Z (2 ^ k) * pow2 (- k) == 1)%Q.
Proof.
  intros Hk. rewrite (pow2_nonpos k Hk).
  assert (Hpos : (0 < inject_Z (2 ^ k))%Q).
  { change 0%Q with (inject_Z 0). rewrite <- Zlt_Qlt. apply Z.pow_pos_nonneg; lia. }
  split.
  - apply Qlt_shift_div_l; [exact Hpos |]. rewrite Qmult_0_l. reflexivity.
  - field. intros H0. rewrite H0 in Hpos. discriminate.
Qed.

(** Rounding a positive real below an integer [B < 2^53] gives a finite
    value, not negative and not above [B]: [B] itself is a binary64 value. *)
Lemma round64_bounded (q : Q) (B : Z) :
  (0 < q)%Q -> (q <= inject_Z B)%Q -> (B < 2 ^ 53)%Z ->
  exists z, round64 q = Fin z /\ (0 <= z)%Q /\ (z <= inject_Z B)%Q.
Proof.
  intros Hq HB Hb. unfold round64.
  assert (Hgt : (q ?= 0)%Q = Gt) by (apply Qgt_alt; exact Hq).
  assert (Habs : Qabs q = q).
  { destruct q as [[| n | n] d]; try reflexivity; discriminate. }
  rewrite Hgt, Habs.
  destruct (exponent_range q B (Qlt_le_weak _ _ Hq) HB Hb) as [Hlo Hhi].
  set (e := exponent q) in *. set (k := (- e)%Z).
  assert (Hk : (0 <= k)%Z) by (unfold k; lia).
  replace e with (- k)%Z by (unfold k; lia).
  destruct (pow2_scale k Hk) as [Hpos Hinv].
  set (P := pow2 (- k)) in *.
  assert (HB0 : (0 <= inject_Z B)%Q).
  { apply Qle_trans with q; [apply Qlt_le_weak; exact Hq | exact HB]. }
  assert (HKP : (inject_Z (B * 2 ^ k) * P == inject_Z B)%Q).
  { rewrite inject_Z_mult, <- Qmult_assoc, Hinv, Qmult_1_r. reflexivity. }
  assert (Hy0 : (0 <= q / P)%Q).
  { apply Qle_shift_div_l; [exact Hpos |]. rewrite Qmult_0_l.
    apply Qlt_le_weak. exact Hq. }
  assert (HyK : (q / P <= inject_Z (B * 2 ^ k))%Q).
  { apply Qle_shift_div_r; [exact Hpos |]. rewrite HKP. exact HB. }
  pose proof (nearest_even_nonneg _ Hy0) as Hm0.
  pose proof (nearest_even_le _ _ HyK) as HmK.
  set (m := nearest_even (q / P)) in *.
  destruct (Z.eqb_spec m 0) as [Hz | Hnz].
  - exists 0%Q. split; [reflexivity |]. split; [apply Qle_refl | exact HB0].
  - assert (Hlog : (Z.log2 m < 53 + k)%Z).
    { apply Z.log2_lt_pow2; [lia |]. rewrite Z.pow_add_r by lia.
      apply Z.le_lt_trans with (B * 2 ^ k)%Z; [exact HmK |].
      apply Z.mul_lt_mono_pos_r; [apply Z.pow_pos_nonneg; lia | exact Hb]. }
    destruct (Z.leb_spec 1024 (- k + Z.log2 m)) as [Hov | _]; [lia |].
    exists (inject_Z m * P)%Q. split; [reflexivity |]. split.
    + apply Qmult_le_0_compat; [| apply Qlt_le_weak; exact Hpos].
      change 0%Q with (inject_Z 0). rewrite <- Zle_Qle. exact Hm0.
    + rewrite <- HKP. apply Qmult_le_compat_r; [| apply Qlt_le_weak; exact Hpos].
      rewrite <- Zle_Qle. exact HmK.
Qed.

Lemma is_zero_Fin (q : Q) : is_zero (Fin q) = true <-> (q == 0)%Q.
Proof.
  unfold is_zero. destruct (q ?= 0)%Q eqn:Hcmp.
  - apply Qeq_alt in Hcmp. tauto.
  - split; [discriminate |]. intros H. apply Qeq_alt in H. congruence.
  - split; [discriminate |]. intros H. apply Qeq_alt in H. congruence.
Qed.

Lemma is_neg_Fin (q : Q) : (0 <= q)%Q -> is_neg (Fin q) = false.
Proof.
  intros Hq. unfold is_neg. destruct (q ?= 0)%Q eqn:Hcmp; try reflexivity.
  apply Qlt_alt in Hcmp. exfalso. exact (Qlt_not_le _ _ Hcmp Hq).
Qed.

(** For a callback within the library's contract, the progress is a finite
    number between 0 and 100. *)
Lemma in_contract_progress (c t : Q) :
  (0 < t)%Q -> (0 <= c)%Q -> (c <= t)%Q ->
  exists p, mul (div (Fin c) (Fin t)) (Fin 100) = Fin p
            /\ (0 <= p)%Q /\ (p <= 100)%Q.
Proof.
  intros Ht Hc0 Hct.
  assert (Hfrac : exists f, div (Fin c) (Fin t) = Fin f /\ (0 <= f)%Q /\ (f <= 1)%Q).
  { unfold div. cbn [is_nan is_inf orb value].
    rewrite (is_neg_Fin c Hc0), (is_neg_Fin t (Qlt_le_weak _ _ Ht)). cbn [xorb].
    destruct (is_zero (Fin t)) eqn:Hzt.
    { apply is_zero_Fin in Hzt. rewrite Hzt in Ht. discriminate. }
    destruct (is_zero (Fin c)) eqn:Hzc.
    { exists 0%Q. repeat split; discriminate. }
    apply (round64_bounded (c / t) 1); [| | reflexivity].
    - apply Qlt_shift_div_l; [exact Ht |]. rewrite Qmult_0_l.
      destruct (Qle_lt_or_eq _ _ Hc0) as [H | H]; [exact H |].
      exfalso. symmetry in H. apply is_zero_Fin in H. congruence.
    - apply Qle_shift_div_r; [exact Ht |]. rewrite Qmult_1_l. exact Hct. }
  destruct Hfrac as (f & -> & Hf0 & Hf1).
  unfold mul. cbn [is_nan is_inf orb value].
  rewrite (is_neg_Fin f Hf0). cbn [is_neg xorb].
  replace (is_zero (Fin 100)) with false by reflexivity. rewrite orb_false_r.
  change (match (100 ?= 0)%Q with Lt => true | _ => false end) with false.
  destruct (is_zero (Fin f)) eqn:Hzf.
  { exists 0%Q. repeat split; discriminate. }
  apply (round64_bounded (f * 100) 100); [| | reflexivity].
  - apply Qmult_lt_0_compat; [| reflexivity].
    destruct (Qle_lt_or_eq _ _ Hf0) as [H | H]; [exact H |].
    exfalso. symmetry in H. apply is_zero_Fin in H. congruence.
  - apply (Qmult_le_compat_r _ _ 100) in Hf1; [| discriminate].
    rewrite Qmult_1_l in Hf1. exact Hf1.
Qed.

Lemma Math_max_floor (x : num) :
  x <> NaN -> at_least 4 (Math_max (Fin 4) x) = true.
Proof.
  destruct x as [q | | | |]; intros Hx; try reflexivity; [| congruence].
  unfold Math_max. destruct (Qle_bool 4 q) eqn:Hq; [exact Hq | reflexivity].
Qed.

Lemma Math_max_unclamped (p : Q) :
  (4 <= p)%Q -> Math_max (Fin 4) (Fin p) = Fin p.
Proof.
  intros Hp. unfold Math_max. apply Qle_bool_iff in Hp. rewrite Hp. reflexivity.
Qed.

Lemma Math_max_in_range (p : Q) :
  (p <= 100)%Q -> between 4 100 (Math_max (Fin 4) (Fin p)) = true.
Proof.
  intros Hp. unfold Math_max, between. destruct (Qle_bool 4 p) eqn:Hq.
  - rewrite Hq. apply Qle_bool_iff in Hp. rewrite Hp. reflexivity.
  - reflexivity.
Qed.

Lemma Math_round_in_range (p : Q) :
  (0 <= p)%Q -> (p <= 100)%Q ->
  exists n : Z, Math_round (Fin p) = of_Z n
    /\ (0 <= n <= 100)%Z
    /\ (inject_Z n <= p + (1 # 2))%Q
    /\ (p + (1 # 2) < inject_Z (n + 1))%Q.
Proof.
  intros Hp0 Hp100. exists (Qfloor (p + (1 # 2))).
  split.
  { unfold Math_round. rewrite (is_neg_Fin p Hp0), andb_false_r. reflexivity. }
  split; [| split; [apply Qfloor_le | apply Qlt_floor]].
  split.
  - change 0%Z with (Qfloor (0 + (1 # 2))). apply Qfloor_resp_le.
    apply Qplus_le_l. exact Hp0.
  - change 100%Z with (Qfloor (100 + (1 # 2))). apply Qfloor_resp_le.
    apply Qplus_le_l. exact Hp100.
Qed.

Lemma progress_after_callback
    (s : State) (j : nat) (key : string) (current total : num) :
  j ∈ jobs (env s) ->
  step s (Progress j key current total)
  = Some (progress_callback key current total s)
  /\ progress (view (progress_callback key current total s))
     = mul (div current total) (Fin 100).
Proof.
  intros Hj. split.
  - unfold step. rewrite decide_True by exact Hj. reflexivity.
  - destruct_state s. reflexivity.
Qed.

Lemma negative_zero_progress (t : Q) :
  (0 < t)%Q -> mul (div NegZero (Fin t)) (Fin 100) = NegZero.
Proof.
  intros Ht. unfold div. cbn [is_nan is_inf orb].
  rewrite (is_neg_Fin t (Qlt_le_weak _ _ Ht)).
  destruct (is_zero (Fin t)) eqn:Hzt.
  { apply is_zero_Fin in Hzt. rewrite Hzt in Ht. discriminate. }
  reflexivity.
Qed.

(** C6, as the code has it.  A progress callback for a running job sets
    progress to [current / total * 100], computed in binary64.  The bar's
    width is [Math.max(4, progress)]: at least 4 whenever progress is not
    NaN, progress itself whenever progress is a finite number from 4 on, so
    that nothing clamps it from above, and within 4 and 100 whenever
    [current] and [total] are finite with [total > 0] and
    [0 <= current <= total].  The label is [Math.round(progress)], with no
    floor: under the same conditions a whole number from 0 to 100, the
    negative zero when [current] is the negative zero. *)
Theorem bar_width_floor_and_range
    (s : State) (j : nat) (key : string) (current total : num) :
  j ∈ jobs (env s) ->
  exists s', step s (Progress j key current total) = Some s'
    /\ progress (view s') = mul (div current total) (Fin 100)
    /\ bar_width s' = Math_max (Fin 4) (progress (view s'))
    /\ percent_label s' = Math_round (progress (view s'))
    /\ (progress (view s') <> NaN -> at_least 4 (bar_width s') = true)
    /\ (forall p, progress (view s') = Fin p -> (4 <= p)%Q ->
          bar_width s' = Fin p)
    /\ (forall c t, current = Fin c -> total = Fin t ->
          (0 < t)%Q -> (0 <= c)%Q -> (c <= t)%Q ->
          between 4 100 (bar_width s') = true
          /\ exists n : Z, percent_label s' = of_Z n /\ (0 <= n <= 100)%Z)
    /\ (forall t, current = NegZero -> total = Fin t -> (0 < t)%Q ->
          between 4 100 (bar_width s') = true
          /\ percent_label s' = NegZero).
Proof.
  intros Hj. exists (progress_callback key current total s).
  destruct (progress_after_callback s j key current total Hj) as [Hstep Hp].
  split; [exact Hstep |]. split; [exact Hp |].
  unfold bar_width, percent_label.
  split; [reflexivity |]. split; [reflexivity |].
  split; [apply Math_max_floor |].
  split; [intros p -> H4; exact (Math_max_unclamped p H4) |].
  split.
  - intros c t -> -> Ht Hc0 Hct. rewrite Hp.
    destruct (in_contract_progress c t Ht Hc0 Hct) as (p & -> & Hp0 & Hp100).
    split; [exact (Math_max_in_range p Hp100) |].
    destruct (Math_round_in_range p Hp0 Hp100) as (n & Hn & Hrange & _).
    exists n. split; assumption.
  - intros t -> -> Ht. rewrite Hp, (negative_zero_progress t Ht).
    split; reflexivity.
Qed.

Lemma bar_width_floor_and_range_witness :
  0 ∈ jobs (env (state_after trace_running))
  /\ exists s', step (state_after trace_running)
                  (Progress 0 "compute" (of_Z 1) (of_Z 2)) = Some s'
       /\ between 4 100 (bar_width s') = true.
Proof.
  assert (H : 0 ∈ jobs (env (state_after trace_running))).
  { vm_compute. set_solver. }
  split; [exact H |].
  destruct (bar_width_floor_and_range
              (state_after trace_running) 0 "compute" (of_Z 1) (of_Z 2) H)
    as (s' & Hstep & _ & _ & _ & _ & _ & Hrange & _).
  exists s'. split; [exact Hstep |].
  apply (Hrange (inject_Z 1) (inject_Z 2)); reflexivity || discriminate.
Defined.

(** Out of the library's contract nothing bounds the bar: a callback
    reporting more work done than the total drives its width to 150. *)
Lemma bar_width_is_not_clamped :
  ~ (forall s j key current total s',
        reachable s ->
        isProcessing (view s) = true ->
        step s (Progress j key current total) = Some s' ->
        between 4 100 (bar_width s') = true).
Proof.
  intros Hclaim.
  specialize (Hclaim (state_after trace_running) 0 "compute" (of_Z 3) (of_Z 2)
                (progress_callback "compute" (of_Z 3) (of_Z 2)
                   (state_after trace_running))
                (state_after_reachable trace_running) eq_refl).
  assert (Hstep : step (state_after trace_running)
                    (Progress 0 "compute" (of_Z 3) (of_Z 2))
                  = Some (progress_callback "compute" (of_Z 3) (of_Z 2)
                            (state_after trace_running))).
  { unfold step. rewrite decide_True; [reflexivity |]. vm_compute. set_solver. }
  specialize (Hclaim Hstep).
  assert (Hwide : between 4 100
                    (bar_width (progress_callback "compute" (of_Z 3) (of_Z 2)
                                  (state_after trace_running))) = false)
    by (vm_compute; reflexivity).
  exact (eq_true_false_abs _ Hclaim Hwide).
Qed.

(** The percentage written next to the bar is [Math.round(progress)], with
    no floor: one unit of work out of a hundred is shown as 1. *)
Lemma percent_label_is_not_floored :
  exists s', step (state_after trace_running)
               (Progress 0 "compute" (of_Z 1) (of_Z 100)) = Some s'
    /\ at_least 4 (percent_label s') = false.
Proof.
  exists (progress_callback "compute" (of_Z 1) (of_Z 100) (state_after trace_running)).
  split; [| vm_compute; reflexivity].
  unfold step. rewrite decide_True; [reflexivity |]. vm_compute. set_solver.
Qed.

(** C6, as claimed, fails within the library's contract: for a callback
    with [total > 0] and [0 <= current <= total] the displayed values do not
    all lie between 4 and 100.  After one unit of work out of a hundred the
    bar is 4 wide and the label reads 1. *)
Lemma displayed_progress_is_not_floored :
  ~ (forall s j key c t s',
        reachable s ->
        isProcessing (view s) = true ->
        (0 < t)%Q -> (0 <= c)%Q -> (c <= t)%Q ->
        step s (Progress j key (Fin c) (Fin t)) = Some s' ->
        between 4 100 (bar_width s') = true
        /\ between 4 100 (percent_label s') = true).
Proof.
  intros Hclaim.
  assert (Hj : 0 ∈ jobs (env (state_after trace_running))).
  { vm_compute. set_solver. }
  destruct (progress_after_callback (state_after trace_running) 0 "compute"
              (Fin (inject_Z 1)) (Fin (inject_Z 100)) Hj) as [Hstep _].
  assert (H1 : (0 < inject_Z 100)%Q) by reflexivity.
  assert (H2 : (0 <= inject_Z 1)%Q) by discriminate.
  assert (H3 : (inject_Z 1 <= inject_Z 100)%Q) by discriminate.
  destruct (Hclaim (state_after trace_running) 0 "compute"
              (inject_Z 1) (inject_Z 100) _
              (state_after_reachable trace_running) eq_refl H1 H2 H3 Hstep)
    as [_ Hlabel].
  assert (Hlow : between 4 100
                   (percent_label
                      (progress_callback "compute" (Fin (inject_Z 1))
                         (Fin (inject_Z 100)) (state_after trace_running)))
                 = false)
    by (vm_compute; reflexivity).
  exact (eq_true_false_abs _ Hlabel Hlow).
Qed.

(** ** Superseded jobs *)

(** C1, on the code.  [b.png] is submitted while the job of [a.png] runs.
    Starting the second job aborts the first controller before the
    processor is called again, but the signal reaches nobody: when the first
    job delivers after the second, its blob replaces the second's result
    under the name of [b.png]; and when the first job fails while the second
    runs, its error is shown and the processing flag is switched off. *)
Theorem superseded_job_result_is_applied :
  (let s := state_after trace_superseded in
   completes trace_superseded = true
   /\ fileName (view s) = Some "b.png"
   /\ image (view s) = Some "data:b"
   /\ processedImage (view s) = Some 1
   /\ blobUrlStore (env s) !! 1 = Some "a-cutout"
   /\ blobUrlStore (env s) !! 0 = None
   /\ log (env s) =
        [ECreateObjectURL 1 "a-cutout"; ERevokeObjectURL 0;
         ECreateObjectURL 0 "b-cutout";
         ERemoveBackground 1 "data:b"; EAbort 0; EReadAsDataURL 1 b_png;
         ERemoveBackground 0 "data:a"; EReadAsDataURL 0 a_png])
  /\ (let t := state_after trace_superseded_failure in
      completes trace_superseded_failure = true
      /\ 1 ∈ jobs (env t)
      /\ fileName (view t) = Some "b.png"
      /\ error (view t) = Some "Failed to remove background: out of memory"
      /\ isProcessing (view t) = false
      /\ progress (view t) = Fin 0
      /\ abortControllerRef (refs t) = None).
Proof.
  cbv zeta. split.
  - repeat (split; [vm_compute; reflexivity |]). vm_compute; reflexivity.
  - split; [vm_compute; reflexivity |].
    split; [vm_compute; set_solver |].
    repeat (split; [vm_compute; reflexivity |]). vm_compute; reflexivity.
Qed.

(** ** The size label *)

Lemma round_half_up_KB (b : Z) :
  round_half_up (inject_Z b / 1024) = ((2 * b + 1024) / 2048)%Z.
Proof.
  unfold round_half_up, Qfloor, Qdiv, Qmult, Qplus, Qinv, inject_Z. simpl.
  f_equal. lia.
Qed.

Lemma round_half_up_MB (b : Z) :
  round_half_up (inject_Z b / (1024 * 1024) * 100)
  = ((200 * b + 1048576) / 2097152)%Z.
Proof.
  unfold round_half_up, Qfloor, Qdiv, Qmult, Qplus, Qinv, inject_Z. simpl.
  f_equal. lia.
Qed.

Lemma append_nonempty (a b : string) : b <> EmptyString -> a +:+ b <> EmptyString.
Proof.
  intros Hb. destruct a as [| c a].
  - rewrite append_nil. exact Hb.
  - rewrite append_cons. discriminate.
Qed.

Lemma formatBytes_nonempty (b : Z) : formatBytes b <> EmptyString.
Proof.
  unfold formatBytes.
  destruct (b <? 1024)%Z; [| destruct (b <? 1024 * 1024)%Z];
    apply append_nonempty; discriminate.
Qed.

(** X1. Sizes from 1 KiB up to, but not including, 1 MiB are shown as a whole
    number of KB, the nearest one (halves up), which lies between 1 and
    1024; it is 1024 exactly for the sizes from 1,048,064 bytes on. *)
Theorem formatBytes_kilobytes (b : Z) :
  (1024 <= b < 1048576)%Z ->
  exists k : Z,
    formatBytes b = decimal k +:+ " KB"
    /\ (1 <= k <= 1024)%Z
    /\ (-512 < 1024 * k - b <= 512)%Z
    /\ (k = 1024 <-> 1048064 <= b)%Z.
Proof.
  intros Hb. exists ((2 * b + 1024) / 2048)%Z. split.
  - unfold formatBytes.
    destruct (Z.ltb_spec b 1024); [lia |].
    destruct (Z.ltb_spec b (1024 * 1024)); [| lia].
    rewrite round_half_up_KB. reflexivity.
  - Z.to_euclidean_division_equations. lia.
Qed.

Lemma formatBytes_kilobytes_witness :
  exists k : Z, formatBytes 1048575 = decimal k +:+ " KB" /\ k = 1024%Z.
Proof.
  destruct (formatBytes_kilobytes 1048575) as (k & Hf & _ & _ & Hk); [lia |].
  exists k. split; [exact Hf |]. apply Hk. lia.
Defined.

(** X2. Sizes from 1 MiB up to, but not including, [2^53] bytes, the range
    in which every size is a number, are shown in MB with two decimals: the shown
    hundredths [n] are the nearest to the size (halves up), so the label is
    off by at most half a hundredth of a MiB. *)
Theorem formatBytes_megabytes (b : Z) :
  (1048576 <= b < 9007199254740992)%Z ->
  exists n : Z,
    formatBytes b
    = (decimal (n / 100) +:+ "." +:+ two_digits (n mod 100)) +:+ " MB"
    /\ (100 <= n)%Z
    /\ (0 <= n mod 100 < 100)%Z
    /\ (-524288 < n * 1048576 - 100 * b <= 524288)%Z.
Proof.
  intros Hb. exists ((200 * b + 1048576) / 2097152)%Z. split.
  - unfold formatBytes, toFixed2.
    destruct (Z.ltb_spec b 1024); [lia |].
    destruct (Z.ltb_spec b (1024 * 1024)); [lia |].
    rewrite round_half_up_MB. reflexivity.
  - Z.to_euclidean_division_equations. lia.
Qed.

Lemma formatBytes_megabytes_witness :
  exists n : Z,
    formatBytes 2097152
    = (decimal (n / 100) +:+ "." +:+ two_digits (n mod 100)) +:+ " MB"
    /\ (100 <= n)%Z.
Proof.
  destruct (formatBytes_megabytes 2097152) as (n & Hf & Hn & _); [lia |].
  exists n. split; assumption.
Defined.

(** X3. The validator and the formatter together: a file the validator accepts
    is never listed above 5.00 MB. *)
Theorem accepted_file_is_listed_up_to_5MB (f : File) :
  accepts f = true ->
  (1048576 <= file_size f)%Z ->
  exists n : Z,
    formatBytes (file_size f)
    = (decimal (n / 100) +:+ "." +:+ two_digits (n mod 100)) +:+ " MB"
    /\ (100 <= n <= 500)%Z
    /\ (n = 500 <-> 5237638 <= file_size f)%Z.
Proof.
  intros Hacc Hb. apply accepts_true_iff in Hacc as [_ Hmax].
  exists ((200 * file_size f + 1048576) / 2097152)%Z. split.
  - unfold formatBytes, toFixed2.
    destruct (Z.ltb_spec (file_size f) 1024); [lia |].
    destruct (Z.ltb_spec (file_size f) (1024 * 1024)); [lia |].
    rewrite round_half_up_MB. reflexivity.
  - Z.to_euclidean_division_equations. lia.
Qed.

Lemma accepted_file_is_listed_up_to_5MB_witness :
  exists n : Z,
    formatBytes (file_size photo_jpg)
    = (decimal (n / 100) +:+ "." +:+ two_digits (n mod 100)) +:+ " MB"
    /\ (100 <= n <= 500)%Z.
Proof.
  destruct (accepted_file_is_listed_up_to_5MB photo_jpg) as (n & Hf & Hn & _);
    [reflexivity | simpl; lia |].
  exists n. split; assumption.
Defined.

(** ** Accepted submissions *)

Lemma accepted_parse (f : File) :
  accepts f = true -> imageFileSchema_parse (file_type f) (file_size f) = inr ().
Proof.
  unfold accepts. destruct (imageFileSchema_parse _ _) as [e | []];
    [discriminate | reflexivity].
Qed.

Lemma accepted_submission_state (f : File) (s : State) :
  accepts f = true ->
  let s' := validateAndProcessFile f s in
  log (env s') = [EReadAsDataURL (nextReader (env s)) f] ++ log (env s)
  /\ readers (env s') = {[nextReader (env s)]} ∪ readers (env s)
  /\ nextReader (env s') = S (nextReader (env s))
  /\ view s' = MkView (image (view s)) None (Some (file_name f))
                 (Some (file_size f)) None (isProcessing (view s))
                 (progress (view s)) false false
  /\ refs s' = refs s
  /\ blobUrlStore (env s') = blobUrlStore (env s)
  /\ jobs (env s') = jobs (env s)
  /\ nextJob (env s') = nextJob (env s)
  /\ nextUrl (env s') = nextUrl (env s)
  /\ mounted (env s') = mounted (env s).
Proof.
  intros Hacc. unfold validateAndProcessFile. rewrite (accepted_parse f Hacc).
  destruct_state s. run_handlers. repeat split.
Qed.

(** X4. An accepted file records its name and size, clears the error, hides the
    previous result at once and starts exactly one read, and no job.  The
    original image on display, the processing flag and the progress are left
    as they are, and so is the previous result's object URL, which stays
    live. *)
Theorem accepted_submission_starts_one_read (s : State) (f : File) :
  mounted (env s) = true ->
  accepts f = true ->
  exists s', step s (Submit f) = Some s'
    /\ emitted s s' = [EReadAsDataURL (nextReader (env s)) f]
    /\ readers (env s') = {[nextReader (env s)]} ∪ readers (env s)
    /\ fileName (view s') = Some (file_name f)
    /\ fileSize (view s') = Some (file_size f)
    /\ error (view s') = None
    /\ processedImage (view s') = None
    /\ image (view s') = image (view s)
    /\ isProcessing (view s') = isProcessing (view s)
    /\ progress (view s') = progress (view s)
    /\ refs s' = refs s
    /\ live_urls s' = live_urls s
    /\ jobs (env s') = jobs (env s).
Proof.
  intros Hm Hacc. exists (validateAndProcessFile f s).
  split; [exact (step_submit s f Hm) |].
  destruct (accepted_submission_state f s Hacc)
    as (Hlog & Hrd & _ & Hv & Hr & Hst & Hj & _).
  split; [exact (emitted_app _ _ _ Hlog) |]. split; [exact Hrd |].
  unfold live_urls. rewrite Hv, Hr, Hst, Hj. repeat split.
Qed.

Lemma accepted_submission_starts_one_read_witness :
  exists s', step (state_after trace_success) (Submit b_png) = Some s'
    /\ emitted (state_after trace_success) s' = [EReadAsDataURL 1 b_png]
    /\ processedImage (view s') = None
    /\ live_urls s' = live_urls (state_after trace_success).
Proof.
  destruct (accepted_submission_starts_one_read
              (state_after trace_success) b_png eq_refl eq_refl)
    as (s' & Hstep & Hem & _ & _ & _ & _ & Hpi & _ & _ & _ & _ & Hlive & _).
  exists s'. repeat split; assumption.
Defined.

(** X5. The size shown for an accepted file is empty exactly when the file is
    empty: a file of 0 bytes is accepted and listed without a size. *)
Theorem accepted_empty_file_has_no_size_label (s : State) (f : File) :
  mounted (env s) = true ->
  accepts f = true ->
  exists s', step s (Submit f) = Some s'
    /\ (size_label (fileSize (view s')) = EmptyString <-> file_size f = 0%Z)
    /\ (file_size f <> 0%Z ->
        size_label (fileSize (view s')) = formatBytes (file_size f)).
Proof.
  intros Hm Hacc. exists (validateAndProcessFile f s).
  split; [exact (step_submit s f Hm) |].
  destruct (accepted_submission_state f s Hacc) as (_ & _ & _ & Hv & _).
  rewrite Hv. cbn [fileSize]. unfold size_label.
  destruct (file_size f) as [| p | p] eqn:Hsz.
  - split; [split; reflexivity | congruence].
  - split; [| reflexivity].
    split; [intros H; exfalso; exact (formatBytes_nonempty _ H) | discriminate].
  - split; [| reflexivity].
    split; [intros H; exfalso; exact (formatBytes_nonempty _ H) | discriminate].
Qed.

Lemma accepted_empty_file_has_no_size_label_witness :
  exists s',
    step initial (Submit {| file_name := "empty.png"; file_type := "image/png";
                            file_size := 0 |}) = Some s'
    /\ size_label (fileSize (view s')) = EmptyString.
Proof.
  destruct (accepted_empty_file_has_no_size_label initial
              {| file_name := "empty.png"; file_type := "image/png"; file_size := 0 |}
              eq_refl eq_refl) as (s' & Hstep & Hiff & _).
  exists s'. split; [exact Hstep |]. apply Hiff. reflexivity.
Defined.

(** ** Read completion *)

Lemma onload_state (r : nat) (d : string) (s : State) :
  let s' := reader_onload d (settle_reader r s) in
  log (env s') = (ERemoveBackground (nextJob (env s)) d
                    :: abort_effects (abortControllerRef (refs s))) ++ log (env s)
  /\ view s' = MkView (Some d) (processedImage (view s)) (fileName (view s))
                 (fileSize (view s)) None true (Fin 0)
                 (originalLoaded (view s)) false
  /\ refs s' = MkRefs (Some (nextJob (env s))) (processedUrlRef (refs s))
  /\ jobs (env s') = {[nextJob (env s)]} ∪ jobs (env s)
  /\ nextJob (env s') = S (nextJob (env s))
  /\ readers (env s') = readers (env s) ∖ {[r]}
  /\ nextReader (env s') = nextReader (env s)
  /\ blobUrlStore (env s') = blobUrlStore (env s)
  /\ nextUrl (env s') = nextUrl (env s)
  /\ mounted (env s') = mounted (env s)
  /\ aborted (env s') = match abortControllerRef (refs s) with
                        | Some c => {[c]} ∪ aborted (env s)
                        | None => aborted (env s)
                        end.
Proof.
  destruct_state s. run_handlers. destruct ac; run_handlers; repeat split.
Qed.

Lemma read_completion_starts_job_aux (s : State) (r : nat) (d : string) :
  r ∈ readers (env s) ->
  exists s', step s (ReaderLoad r d) = Some s'
    /\ emitted s s' = ERemoveBackground (nextJob (env s)) d
                        :: abort_effects (abortControllerRef (refs s))
    /\ view s' = MkView (Some d) (processedImage (view s)) (fileName (view s))
                   (fileSize (view s)) None true (Fin 0)
                   (originalLoaded (view s)) false.
Proof.
  intros Hr. exists (reader_onload d (settle_reader r s)).
  split; [unfold step; rewrite decide_True by exact Hr; reflexivity |].
  destruct (onload_state r d s) as (Hlog & Hv & _).
  split; [exact (emitted_app _ _ _ Hlog) | exact Hv].
Qed.

(** X6. When a read completes, the data URL becomes the original image and the
    processor is called once, with that same data URL, after the controller
    of the previous job, if the reference holds one, was aborted.  The abort
    settles nothing: every job pending before is still pending, beside the
    new one, and the object URL of the previous result is kept. *)
Theorem read_completion_starts_job (s : State) (r : nat) (d : string) :
  r ∈ readers (env s) ->
  exists s', step s (ReaderLoad r d) = Some s'
    /\ emitted s s' = ERemoveBackground (nextJob (env s)) d
                        :: abort_effects (abortControllerRef (refs s))
    /\ image (view s') = Some d
    /\ isProcessing (view s') = true
    /\ progress (view s') = Fin 0
    /\ error (view s') = None
    /\ abortControllerRef (refs s') = Some (nextJob (env s))
    /\ jobs (env s') = {[nextJob (env s)]} ∪ jobs (env s)
    /\ (forall c, abortControllerRef (refs s) = Some c -> c ∈ aborted (env s'))
    /\ (r ∉ readers (env s'))
    /\ processedImage (view s') = processedImage (view s)
    /\ fileName (view s') = fileName (view s)
    /\ live_urls s' = live_urls s.
Proof.
  intros Hr. exists (reader_onload d (settle_reader r s)).
  split; [unfold step; rewrite decide_True by exact Hr; reflexivity |].
  destruct (onload_state r d s)
    as (Hlog & Hv & Hrf & Hj & _ & Hrd & _ & Hst & _ & _ & Hab).
  split; [exact (emitted_app _ _ _ Hlog) |].
  unfold live_urls. rewrite Hv, Hrf, Hj, Hrd, Hst, Hab. cbn [image isProcessing
    progress error abortControllerRef processedImage fileName].
  repeat split; try reflexivity.
  - intros c ->. set_solver.
  - set_solver.
Qed.

Lemma read_completion_starts_job_witness :
  exists s', step (state_after [Submit a_png; ReaderLoad 0 "data:a"; Submit b_png])
               (ReaderLoad 1 "data:b") = Some s'
    /\ emitted (state_after [Submit a_png; ReaderLoad 0 "data:a"; Submit b_png]) s'
       = [ERemoveBackground 1 "data:b"; EAbort 0]
    /\ image (view s') = Some "data:b".
Proof.
  assert (H : 1 ∈ readers (env (state_after
                [Submit a_png; ReaderLoad 0 "data:a"; Submit b_png]))).
  { vm_compute. set_solver. }
  destruct (read_completion_starts_job _ 1 "data:b" H)
    as (s' & Hstep & Hem & Him & _).
  exists s'. repeat split; assumption.
Defined.

(** X7. Clearing does not stop a read in progress: once the read completes, the
    image is shown and a job starts, under no file name and no size. *)
Theorem clear_does_not_cancel_a_read (s : State) (r : nat) (d : string) :
  mounted (env s) = true ->
  r ∈ readers (env s) ->
  exists s1 s2,
    step s Clear = Some s1
    /\ step s1 (ReaderLoad r d) = Some s2
    /\ image (view s2) = Some d
    /\ isProcessing (view s2) = true
    /\ fileName (view s2) = None
    /\ fileSize (view s2) = None
    /\ In (ERemoveBackground (nextJob (env s)) d) (emitted s1 s2).
Proof.
  intros Hm Hr. exists (clearImage s).
  assert (Henv : readers (env (clearImage s)) = readers (env s)
                 /\ nextJob (env (clearImage s)) = nextJob (env s)).
  { destruct_state s. run_handlers. destruct ac, pu; split; reflexivity. }
  destruct Henv as [Hrd Hnj].
  assert (Hr1 : r ∈ readers (env (clearImage s))) by (rewrite Hrd; exact Hr).
  destruct (read_completion_starts_job_aux (clearImage s) r d Hr1)
    as (s2 & Hstep & Hem & Hv).
  exists s2. split; [unfold step; rewrite Hm; reflexivity |].
  split; [exact Hstep |].
  destruct (clear_view s) as [Hcv _]. rewrite Hv, Hcv, Hem, Hnj.
  repeat split. left. reflexivity.
Qed.

Lemma clear_does_not_cancel_a_read_witness :
  exists s1 s2,
    step (state_after trace_reading) Clear = Some s1
    /\ step s1 (ReaderLoad 0 "data:photo") = Some s2
    /\ isProcessing (view s2) = true
    /\ fileName (view s2) = None.
Proof.
  assert (H : 0 ∈ readers (env (state_after trace_reading))).
  { vm_compute. set_solver. }
  destruct (clear_does_not_cancel_a_read (state_after trace_reading) 0 "data:photo"
              eq_refl H) as (s1 & s2 & H1 & H2 & _ & Hip & Hfn & _).
  exists s1, s2. repeat split; assumption.
Defined.

(** ** Jobs, readers and the log *)

Lemma size_add_fresh (X : gset nat) (n : nat) :
  (forall r, r ∈ X -> r < n) -> size ({[n]} ∪ X) = S (size X).
Proof.
  intros Hfresh. rewrite size_union, size_singleton; [reflexivity |].
  intros r Hr HX. apply elem_of_singleton in Hr. subst r.
  specialize (Hfresh n HX). lia.
Qed.

Lemma size_remove (X : gset nat) (r : nat) :
  r ∈ X -> size (X ∖ {[r]}) + 1 = size X.
Proof.
  intros Hr. rewrite size_difference by set_solver. rewrite size_singleton.
  assert (size X <> 0); [| lia].
  intros H0. apply size_empty_inv in H0. set_solver.
Qed.

Lemma size_store_ref (s : State) :
  url_invariant s ->
  size (blobUrlStore (env s)) = match processedUrlRef (refs s) with
                                | Some _ => 1
                                | None => 0
                                end.
Proof.
  intros [Hlive _ _ _ _ _]. rewrite <- size_dom. fold (live_urls s). rewrite Hlive.
  destruct (processedUrlRef (refs s)); [apply size_singleton | apply size_empty].
Qed.

Lemma pipeline_invariant_initial : pipeline_invariant initial.
Proof.
  constructor; unfold initial; run_handlers; cbn [revocations count_calls length];
    try reflexivity.
  - intros j Hj. set_solver.
  - intros r Hr. set_solver.
  - discriminate.
  - intros u. rewrite dom_empty_L. set_solver.
Qed.

Lemma pipeline_invariant_step (s : State) (e : Event) (t : State) :
  url_invariant s -> url_invariant t ->
  pipeline_invariant s -> step s e = Some t -> pipeline_invariant t.
Proof.
  intros Hu Hu' Hinv.
  pose proof (size_store_ref s Hu) as Hsz.
  pose proof (inv_live s Hu) as Hlive.
  destruct_state s. destruct e; unfold step; red_state;
    repeat case_decide;
    try match goal with |- (if ?m then _ else _) = _ -> _ => destruct m end;
    intros Hstep; try discriminate; injection Hstep as <-;
    pose proof (size_store_ref _ Hu') as Hsz'; clear Hu Hu';
    pinv_open Hinv.
  - (* Submit *)
    unfold validateAndProcessFile in *. destruct (imageFileSchema_parse _ _);
      constructor; pinv_norm; auto.
    + intros v Hv. apply elem_of_union in Hv as [Hv | Hv].
      * apply elem_of_singleton in Hv. lia.
      * specialize (Hrf v Hv). lia.
    + rewrite (size_add_fresh rd nr Hrf). lia.
    + older_call Hcreated.
  - (* ReaderLoad *)
    pose proof (size_remove rd reader H) as Hrem.
    destruct ac; constructor; pinv_norm; auto.
    all: try (intros v Hv; apply elem_of_union in Hv as [Hv | Hv];
              [apply elem_of_singleton in Hv; lia | specialize (Hjf v Hv); lia]).
    all: try (intros v Hv; apply Hrf; set_solver).
    all: try (intros _; eexists _, _; split; [reflexivity |];
              split; [set_solver | reflexivity]).
    all: try lia.
    all: try older_call Hcreated.
  - (* ReaderError *)
    pose proof (size_remove rd reader H) as Hrem.
    constructor; pinv_norm; auto.
    + intros v Hv; apply Hrf; set_solver.
    + lia.
  - (* Progress *)
    constructor; pinv_norm; auto.
  - (* Resolved *)
    pinv_norm. destruct pu as [u |]; pinv_norm; constructor; pinv_norm; auto.
    all: try (intros v Hv; apply Hjf; set_solver).
    all: try discriminate.
    all: try lia.
    + intros v Hv. exists blob. left. f_equal.
      rewrite dom_insert_L, dom_delete_L, Hlive in Hv. set_solver.
    + split; [| exact Horder]. apply Hcreated. rewrite Hlive. set_solver.
    + intros v Hv. exists blob. left. f_equal.
      rewrite dom_insert_L, Hlive in Hv. set_solver.
  - (* Rejected *)
    pinv_norm. destruct (is_abort err); pinv_norm; constructor; pinv_norm; auto.
    all: try (intros v Hv; apply Hjf; set_solver).
    all: try discriminate.
    all: try older_call Hcreated.
  - (* Clear *)
    pinv_norm. destruct ac, pu as [u |]; pinv_norm; constructor; pinv_norm; auto.
    all: try discriminate.
    all: try lia.
    all: try (intros v Hv; rewrite dom_delete_L, Hlive in Hv; set_solver).
    all: try older_call Hcreated.
    all: try (split; [| exact Horder]).
    all: try (destruct (Hcreated u) as [b Hb]; [rewrite Hlive; set_solver |];
              exists b; simpl; auto).
  - (* Download *)
    pinv_norm. destruct pi; pinv_norm; constructor; pinv_norm; auto.
    all: try older_call Hcreated.
  - (* Unmount *)
    pinv_norm. destruct pu as [u |]; pinv_norm; constructor; pinv_norm; auto.
    all: try lia.
    all: try (intros v Hv; rewrite dom_delete_L, Hlive in Hv; set_solver).
    all: try (split; [| exact Horder]).
    all: try (destruct (Hcreated u) as [b Hb]; [rewrite Hlive; set_solver |];
              exists b; simpl; auto).
Qed.

Lemma reachable_pipeline_invariant (s : State) :
  reachable s -> pipeline_invariant s.
Proof.
  induction 1 as [| s e s' Hs IH Hstep].
  - exact pipeline_invariant_initial.
  - apply (pipeline_invariant_step s e s'); auto.
    + exact (reachable_url_invariant s Hs).
    + exact (reachable_url_invariant s' (reachable_step s e s' Hs Hstep)).
Qed.

(** X8. Whenever the interface shows processing, a job is really pending: the
    one whose controller the reference holds; and the original image is on
    display. *)
Theorem processing_means_a_job_is_pending (s : State) :
  reachable s ->
  isProcessing (view s) = true ->
  exists c d, abortControllerRef (refs s) = Some c
              /\ c ∈ jobs (env s)
              /\ image (view s) = Some d.
Proof.
  intros Hreach. exact (pinv_processing s (reachable_pipeline_invariant s Hreach)).
Qed.

Lemma processing_means_a_job_is_pending_witness :
  exists c d, abortControllerRef (refs (state_after trace_running)) = Some c
              /\ c ∈ jobs (env (state_after trace_running))
              /\ image (view (state_after trace_running)) = Some d.
Proof.
  exact (processing_means_a_job_is_pending (state_after trace_running)
           (state_after_reachable trace_running) eq_refl).
Defined.

(** X9. The processor is never called more often than reads were started: the
    calls of [removeBackground] and the reads still pending together never
    outnumber the calls of [readAsDataURL]. *)
Theorem at_most_one_job_per_read (s : State) :
  reachable s ->
  count_calls is_removeBackground (log (env s)) + size (readers (env s))
  <= count_calls is_read (log (env s)).
Proof.
  intros Hreach. pose proof (reachable_pipeline_invariant s Hreach) as Hinv.
  rewrite (pinv_reads s Hinv), (pinv_jobs s Hinv). exact (pinv_budget s Hinv).
Qed.

Lemma at_most_one_job_per_read_witness :
  count_calls is_removeBackground (log (env (state_after trace_superseded)))
  + size (readers (env (state_after trace_superseded)))
  <= count_calls is_read (log (env (state_after trace_superseded))).
Proof.
  exact (at_most_one_job_per_read (state_after trace_superseded)
           (state_after_reachable trace_superseded)).
Defined.

Lemma revoked_was_created (l : list Effect) :
  revokes_follow_creates l ->
  forall u, In u (revocations l) -> exists b, In (ECreateObjectURL u b) l.
Proof.
  induction l as [| e l IH]; intros Ho u Hin; [destruct Hin |].
  destruct e; cbn [revocations revokes_follow_creates] in *;
    try (destruct (IH Ho u Hin) as [x Hx]; exists x; right; exact Hx).
  destruct Ho as [[x Hx] Ho]. destruct Hin as [<- | Hin].
  - exists x. right. exact Hx.
  - destruct (IH Ho u Hin) as [b' Hb']. exists b'. right. exact Hb'.
Qed.

(** X10. The component only revokes object URLs it created, and only after it
    created them. *)
Theorem revocations_follow_creations (s : State) :
  reachable s ->
  revokes_follow_creates (log (env s))
  /\ forall u, In u (revocations (log (env s))) ->
               exists b, In (ECreateObjectURL u b) (log (env s)).
Proof.
  intros Hreach. pose proof (pinv_order s (reachable_pipeline_invariant s Hreach)) as Ho.
  split; [exact Ho | exact (revoked_was_created _ Ho)].
Qed.

Lemma revocations_follow_creations_witness :
  revokes_follow_creates (log (env (state_after trace_superseded)))
  /\ exists b, In (ECreateObjectURL 0 b) (log (env (state_after trace_superseded))).
Proof.
  destruct (revocations_follow_creations (state_after trace_superseded)
              (state_after_reachable trace_superseded)) as [Ho Hall].
  split; [exact Ho |]. apply Hall. vm_compute. left. reflexivity.
Defined.

(** X11. Creations and revocations balance: the object URLs created so far are
    the revoked ones and the live ones, so at most one created URL is not
    yet revoked. *)
Theorem creations_balance_revocations (s : State) :
  reachable s ->
  count_calls is_create (log (env s))
  = length (revocations (log (env s))) + size (blobUrlStore (env s))
  /\ count_calls is_create (log (env s))
     <= length (revocations (log (env s))) + 1.
Proof.
  intros Hreach. pose proof (reachable_pipeline_invariant s Hreach) as Hinv.
  pose proof (live_size s (reachable_url_invariant s Hreach)) as Hsize.
  pose proof (pinv_creates s Hinv) as Hc. pose proof (pinv_balance s Hinv) as Hb.
  lia.
Qed.

Lemma creations_balance_revocations_witness :
  count_calls is_create (log (env (state_after trace_superseded)))
  = length (revocations (log (env (state_after trace_superseded))))
    + size (blobUrlStore (env (state_after trace_superseded))).
Proof.
  exact (proj1 (creations_balance_revocations (state_after trace_superseded)
                  (state_after_reachable trace_superseded))).
Defined.

(** ** After unmounting *)

Lemma unmounted_step (s : State) (e : Event) (t : State) :
  mounted (env s) = false ->
  step s e = Some t ->
  mounted (env t) = false
  /\ (live_urls s <> ∅ -> live_urls t <> ∅).
Proof.
  intros Hm. destruct_state s. red_state. subst mt.
  destruct e; unfold step; red_state; repeat case_decide;
    intros Hstep; try discriminate; injection Hstep as <-; run_handlers.
  - destruct ac; run_handlers; auto.
  - auto.
  - auto.
  - destruct pu; run_handlers; (split; [reflexivity |]); intros _;
      rewrite dom_insert_L; set_solver.
  - destruct (is_abort err); run_handlers; auto.
Qed.

Lemma unmounted_run (trace : list Event) (s t : State) :
  mounted (env s) = false ->
  live_urls s <> ∅ ->
  run s trace = Some t ->
  mounted (env t) = false /\ live_urls t <> ∅.
Proof.
  revert s. induction trace as [| e trace IH]; intros s Hm Hlive Hrun.
  - injection Hrun as <-. auto.
  - cbn [run] in Hrun. destruct (step s e) as [s' |] eqn:Hstep; [| discriminate].
    destruct (unmounted_step s e s' Hm Hstep) as [Hm' Hlive'].
    exact (IH s' Hm' (Hlive' Hlive) Hrun).
Qed.

(** X12. Unmounting cancels nothing.  A job that resolves after the component was
    unmounted still creates an object URL for its blob, and from then on, in
    whatever way the remaining readers and jobs settle, some object URL
    stays live: the last one is never revoked. *)
Theorem late_result_after_unmount_is_never_released
    (s : State) (j : nat) (b : Blob) :
  mounted (env s) = false ->
  j ∈ jobs (env s) ->
  exists s', step s (Resolved j b) = Some s'
    /\ blobUrlStore (env s') !! nextUrl (env s) = Some b
    /\ processedUrlRef (refs s') = Some (nextUrl (env s))
    /\ forall trace t, run s' trace = Some t ->
         mounted (env t) = false /\ live_urls t <> ∅.
Proof.
  intros Hm Hj. exists (processImage_resolved b (settle_job j s)).
  assert (Hstep : step s (Resolved j b)
                  = Some (processImage_resolved b (settle_job j s))).
  { unfold step. rewrite decide_True by exact Hj. reflexivity. }
  split; [exact Hstep |].
  destruct (resolved_view s j b) as (_ & Href & Hst & _).
  split; [exact Hst |]. split; [exact Href |].
  intros trace t Hrun.
  destruct (unmounted_step s _ _ Hm Hstep) as [Hm' _].
  apply (unmounted_run trace _ t Hm'); [| exact Hrun].
  unfold live_urls. intros Hempty.
  assert (Hin : nextUrl (env s) ∈ dom (blobUrlStore
                  (env (processImage_resolved b (settle_job j s))))).
  { apply elem_of_dom. rewrite Hst. eauto. }
  rewrite Hempty in Hin. set_solver.
Qed.

Lemma late_result_after_unmount_is_never_released_witness :
  exists s',
    step (state_after (trace_running ++ [Unmount])) (Resolved 0 "photo-cutout")
    = Some s'
    /\ blobUrlStore (env s') !! 0 = Some "photo-cutout"
    /\ forall trace t, run s' trace = Some t -> live_urls t <> ∅.
Proof.
  assert (H : 0 ∈ jobs (env (state_after (trace_running ++ [Unmount])))).
  { vm_compute. set_solver. }
  destruct (late_result_after_unmount_is_never_released
              (state_after (trace_running ++ [Unmount])) 0 "photo-cutout" eq_refl H)
    as (s' & Hstep & Hst & _ & Hrun).
  exists s'. split; [exact Hstep |]. split; [exact Hst |].
  intros trace t Ht. exact (proj2 (Hrun trace t Ht)).
Defined.

(** ** The download name, continued *)

(** X13. A file that already is a PNG is offered under its own name. *)
Theorem png_keeps_its_name (base : string) :
  downloadName (Some (base +:+ ".png")) = base +:+ ".png".
Proof.
  assert (Hne : base +:+ ".png" <> EmptyString) by (apply append_nonempty; discriminate).
  rewrite (downloadName_named _ Hne).
  rewrite (strip_extension_last base "png"); [reflexivity | discriminate | reflexivity].
Qed.

(** X14. The stem of the download name is a prefix of the file name: what is cut
    off is nothing, or a dot followed by a non-empty run of characters other
    than dot and slash. *)
Theorem download_stem_is_a_prefix (name : string) :
  exists cut, name = strip_extension name +:+ cut
    /\ (cut = EmptyString
        \/ exists ext, cut = String "."%char ext
                       /\ ext <> EmptyString /\ all_ext_chars ext = true).
Proof.
  induction name as [| c name IH].
  - exists EmptyString. split; [reflexivity | left; reflexivity].
  - cbn [strip_extension]. destruct (ext_matches_here (String c name)) eqn:Hm.
    + apply ext_matches_here_inv in Hm as (ext & Heq & Hne & Hall).
      exists (String c name). split; [reflexivity |].
      right. exists ext. auto.
    + destruct IH as (cut & Heq & Hcut). exists cut. split; [| exact Hcut].
      rewrite append_cons, <- Heq. reflexivity.
Qed.

(** ** Progress, continued *)

(** X15. A callback that reports no work out of no work, [(0, 0)], makes the
    progress, the bar's width and the label NaN. *)
Theorem empty_stage_makes_progress_NaN
    (s : State) (j : nat) (key : string) (c t : Q) :
  j ∈ jobs (env s) ->
  (c == 0)%Q -> (t == 0)%Q ->
  exists s', step s (Progress j key (Fin c) (Fin t)) = Some s'
    /\ progress (view s') = NaN
    /\ bar_width s' = NaN
    /\ percent_label s' = NaN.
Proof.
  intros Hj Hc Ht. exists (progress_callback key (Fin c) (Fin t) s).
  split; [unfold step; rewrite decide_True by exact Hj; reflexivity |].
  assert (Hp : progress (view (progress_callback key (Fin c) (Fin t) s)) = NaN).
  { destruct_state s. run_handlers. unfold div. cbn [is_nan is_inf orb].
    rewrite (proj2 (is_zero_Fin t) Ht), (proj2 (is_zero_Fin c) Hc). reflexivity. }
  unfold bar_width, percent_label. rewrite Hp. repeat split.
Qed.

Lemma empty_stage_makes_progress_NaN_witness :
  exists s', step (state_after trace_running)
               (Progress 0 "fetch" (of_Z 0) (of_Z 0)) = Some s'
    /\ bar_width s' = NaN.
Proof.
  assert (H : 0 ∈ jobs (env (state_after trace_running))).
  { vm_compute. set_solver. }
  destruct (empty_stage_makes_progress_NaN (state_after trace_running) 0 "fetch"
              (inject_Z 0) (inject_Z 0) H) as (s' & Hstep & _ & Hbar & _);
    [reflexivity | reflexivity |].
  exists s'. split; assumption.
Defined.

(** X16. For a callback within the library's contract, [total > 0] and
    [0 <= current <= total], the progress held is a finite number between 0
    and 100, and the label is a whole number between 0 and 100: the one
    nearest to the progress held, the upper one of two equally near. *)
Theorem percent_label_in_range
    (s : State) (j : nat) (key : string) (c t : Q) :
  j ∈ jobs (env s) ->
  (0 < t)%Q -> (0 <= c)%Q -> (c <= t)%Q ->
  exists s' (p : Q) (n : Z),
    step s (Progress j key (Fin c) (Fin t)) = Some s'
    /\ progress (view s') = Fin p
    /\ (0 <= p)%Q /\ (p <= 100)%Q
    /\ percent_label s' = of_Z n
    /\ (0 <= n <= 100)%Z
    /\ (inject_Z n <= p + (1 # 2))%Q
    /\ (p + (1 # 2) < inject_Z (n + 1))%Q.
Proof.
  intros Hj Ht Hc0 Hc.
  destruct (progress_after_callback s j key (Fin c) (Fin t) Hj) as [Hstep Hp].
  destruct (in_contract_progress c t Ht Hc0 Hc) as (p & Hpq & Hp0 & Hp100).
  destruct (Math_round_in_range p Hp0 Hp100) as (n & Hn & Hrange & Hlo & Hhi).
  exists (progress_callback key (Fin c) (Fin t) s), p, n.
  split; [exact Hstep |]. rewrite Hpq in Hp.
  split; [exact Hp |]. split; [exact Hp0 |]. split; [exact Hp100 |].
  unfold percent_label. rewrite Hp. repeat split; tauto.
Qed.

Lemma percent_label_in_range_witness :
  exists s' (n : Z),
    step (state_after trace_running) (Progress 0 "compute" (of_Z 29) (of_Z 200))
    = Some s'
    /\ percent_label s' = of_Z n
    /\ (0 <= n <= 100)%Z.
Proof.
  assert (H : 0 ∈ jobs (env (state_after trace_running))).
  { vm_compute. set_solver. }
  destruct (percent_label_in_range (state_after trace_running) 0 "compute"
              (inject_Z 29) (inject_Z 200) H)
    as (s' & p & n & Hstep & _ & _ & _ & Hlabel & Hn & _);
    try reflexivity; try discriminate.
  exists s', n. repeat split; tauto.
Defined.

(** ** A whole upload *)

(** X17. From the initial state, for any accepted file: once its read completes
    with a data URL and its job delivers a blob, the data URL is the
    original image, the processed image is an object URL for that blob, the
    file's name and size are shown, no error is shown, nothing is
    processing or pending, and exactly three calls were made: one read, one
    call of the processor, one object URL. *)
Theorem upload_runs_to_a_result (f : File) (d : string) (b : Blob) :
  accepts f = true ->
  exists s1 s2 s3,
    step initial (Submit f) = Some s1
    /\ step s1 (ReaderLoad 0 d) = Some s2
    /\ step s2 (Resolved 0 b) = Some s3
    /\ view s3 = MkView (Some d) (Some 0) (Some (file_name f))
                   (Some (file_size f)) None false (Fin 0) false false
    /\ blobUrlStore (env s3) !! 0 = Some b
    /\ jobs (env s3) = ∅
    /\ readers (env s3) = ∅
    /\ log (env s3) = [ECreateObjectURL 0 b; ERemoveBackground 0 d;
                       EReadAsDataURL 0 f]
    /\ handleDownload s3 = emit (EDownload 0 (downloadName (Some (file_name f)))) s3.
Proof.
  intros Hacc.
  pose proof (accepted_submission_state f initial Hacc) as H1. cbv zeta in H1.
  change (nextReader (env initial)) with 0 in H1.
  change (readers (env initial)) with (∅ : gset nat) in H1.
  change (log (env initial)) with (@nil Effect) in H1.
  change (view initial)
    with (MkView None None None None None false (Fin 0) false false) in H1.
  change (refs initial) with (MkRefs None None) in H1.
  change (blobUrlStore (env initial)) with (∅ : gmap ObjectUrl Blob) in H1.
  change (jobs (env initial)) with (∅ : gset nat) in H1.
  change (nextJob (env initial)) with 0 in H1.
  change (nextUrl (env initial)) with 0 in H1.
  cbn [image isProcessing progress app] in H1.
  set (s1 := validateAndProcessFile f initial) in *.
  destruct H1 as (Hlog1 & Hrd1 & _ & Hv1 & Hr1 & Hst1 & Hj1 & Hnj1 & Hnu1 & _).
  pose proof (onload_state 0 d s1) as H2. cbv zeta in H2.
  rewrite Hlog1, Hv1, Hr1, Hst1, Hj1, Hnj1, Hnu1, Hrd1 in H2.
  cbn [processedImage fileName fileSize originalLoaded abortControllerRef
       processedUrlRef abort_effects app] in H2.
  set (s2 := reader_onload d (settle_reader 0 s1)) in *.
  destruct H2 as (Hlog2 & Hv2 & Hr2 & Hj2 & _ & Hrd2 & _ & Hst2 & Hnu2 & _).
  assert (H0r : 0 ∈ readers (env s1)) by (rewrite Hrd1; set_solver).
  assert (H0j : 0 ∈ jobs (env s2)) by (rewrite Hj2; set_solver).
  exists s1, s2, (processImage_resolved b (settle_job 0 s2)).
  split; [reflexivity |].
  split; [unfold step; rewrite decide_True by exact H0r; reflexivity |].
  split; [unfold step; rewrite decide_True by exact H0j; reflexivity |].
  assert (Hs3 : let s3 := processImage_resolved b (settle_job 0 s2) in
                view s3 = MkView (Some d) (Some 0) (Some (file_name f))
                            (Some (file_size f)) None false (Fin 0) false false
                /\ blobUrlStore (env s3) !! 0 = Some b
                /\ jobs (env s3) = jobs (env s2) ∖ {[0]}
                /\ readers (env s3) = readers (env s2)
                /\ log (env s3) = ECreateObjectURL 0 b :: log (env s2)).
  { clearbody s2. clear s1 Hlog1 Hrd1 Hv1 Hr1 Hst1 Hj1 Hnj1 Hnu1 H0r H0j.
    destruct_state s2. red_state. subst st nu.
    injection Hv2 as -> -> -> -> -> -> -> -> ->. injection Hr2 as -> ->.
    run_handlers. repeat split. }
  cbv zeta in Hs3. destruct Hs3 as (Hv3 & Hst3 & Hj3 & Hrd3 & Hlog3).
  split; [exact Hv3 |]. split; [exact Hst3 |].
  split; [rewrite Hj3, Hj2; set_solver |].
  split; [rewrite Hrd3, Hrd2; set_solver |].
  split; [rewrite Hlog3, Hlog2; reflexivity |].
  unfold handleDownload. rewrite Hv3. reflexivity.
Qed.

Lemma upload_runs_to_a_result_witness :
  exists s1 s2 s3,
    step initial (Submit photo_jpg) = Some s1
    /\ step s1 (ReaderLoad 0 "data:photo") = Some s2
    /\ step s2 (Resolved 0 "photo-cutout") = Some s3
    /\ processedImage (view s3) = Some 0
    /\ handleDownload s3 = emit (EDownload 0 "photo.png") s3.
Proof.
  destruct (upload_runs_to_a_result photo_jpg "data:photo" "photo-cutout" eq_refl)
    as (s1 & s2 & s3 & H1 & H2 & H3 & Hv & _ & _ & _ & _ & Hd).
  exists s1, s2, s3. repeat split; try assumption.
  rewrite Hv. reflexivity.
Defined.

(** ** Dropping and choosing files *)

Lemma validate_keeps_processing (f : File) (s : State) :
  isProcessing (view (validateAndProcessFile f s)) = isProcessing (view s)
  /\ mounted (env (validateAndProcessFile f s)) = mounted (env s).
Proof.
  unfold validateAndProcessFile. destruct (imageFileSchema_parse _ _);
    destruct_state s; run_handlers; split; reflexivity.
Qed.

Lemma commit_unchanged (was : bool) (p : Page) :
  was = isProcessing (view (app p)) -> commit was p = p.
Proof.
  intros ->. unfold commit. rewrite Bool.eqb_reflx.
  destruct (mounted (env (app p))); reflexivity.
Qed.

Lemma validate_reads (f : File) (s : State) :
  emitted s (validateAndProcessFile f s)
  = if accepts f then [EReadAsDataURL (nextReader (env s)) f] else [].
Proof.
  destruct (accepts f) eqn:Hacc.
  - destruct (accepted_submission_state f s Hacc) as (Hlog & _).
    exact (emitted_app _ _ _ Hlog).
  - rewrite (rejected_sets_only_error f s Hacc). apply emitted_app.
    destruct_state s. reflexivity.
Qed.

Lemma process_first_unchanged (files : list File) (p : Page) :
  isProcessing (view (app (process_first files p))) = isProcessing (view (app p))
  /\ overflow (process_first files p) = overflow p
  /\ scrollRestore (process_first files p) = scrollRestore p
  /\ isDragging (process_first files p) = isDragging p.
Proof.
  destruct files as [| f rest]; cbn [process_first]; [repeat split |].
  destruct p as [dr ov sr a]. cbn. split; [apply validate_keeps_processing |].
  repeat split.
Qed.

Lemma process_first_reads (files : list File) (p : Page) :
  forall r g,
    In (EReadAsDataURL r g) (emitted (app p) (app (process_first files p))) ->
    exists rest, files = g :: rest /\ accepts g = true /\ r = nextReader (env (app p)).
Proof.
  intros r g Hin. destruct files as [| f rest]; cbn [process_first] in Hin.
  - rewrite (emitted_app (app p) (app p) []) in Hin by reflexivity. destruct Hin.
  - destruct p as [dr ov sr a]. cbn in Hin. rewrite validate_reads in Hin.
    destruct (accepts f) eqn:Hacc; [| destruct Hin].
    destruct Hin as [[= <- <-] | []]. exists rest. auto.
Qed.

(** X18. A drop or a file choice hands over only its first file: at most one
    read is started, for that file and only if the validator accepts it;
    the other files are never read.  A drop also ends the dragging state,
    and neither touches the scroll lock. *)
Theorem only_the_first_file_is_read (p : Page) (files : list File) :
  mounted (env (app p)) = true ->
  exists p1 p2,
    page_step p (Drop files) = Some p1
    /\ page_step p (Change files) = Some p2
    /\ isDragging p1 = false
    /\ isDragging p2 = isDragging p
    /\ app p1 = app p2
    /\ app p1 = match files with
                | f :: _ => validateAndProcessFile f (app p)
                | [] => app p
                end
    /\ overflow p1 = overflow p /\ overflow p2 = overflow p
    /\ (forall r g,
          In (EReadAsDataURL r g) (emitted (app p) (app p1)) ->
          exists rest, files = g :: rest /\ accepts g = true)
    /\ length (emitted (app p) (app p1)) <= 1.
Proof.
  intros Hm.
  destruct (process_first_unchanged files (setIsDragging false p))
    as (Hip1 & Hov1 & _ & Hdr1).
  destruct (process_first_unchanged files p) as (Hip2 & Hov2 & _ & Hdr2).
  exists (handleDrop files p), (handleFileChange files p).
  unfold page_step. rewrite Hm.
  rewrite (commit_unchanged _ (handleDrop files p)) by (symmetry; exact Hip1).
  rewrite (commit_unchanged _ (handleFileChange files p)) by (symmetry; exact Hip2).
  split; [reflexivity |]. split; [reflexivity |].
  split; [exact Hdr1 |]. split; [exact Hdr2 |].
  assert (Happ : app (handleDrop files p) = app (handleFileChange files p)).
  { destruct files, p; reflexivity. }
  split; [exact Happ |].
  split; [destruct files, p; reflexivity |].
  split; [exact Hov1 |]. split; [exact Hov2 |].
  rewrite Happ. unfold handleFileChange. split.
  - intros r g Hin. destruct (process_first_reads files p r g Hin) as (rest & ? & ? & _).
    eauto.
  - destruct files as [| f rest]; cbn [process_first].
    + rewrite (emitted_app (app p) (app p) []) by reflexivity. cbn. lia.
    + destruct p as [dr ov sr a]. cbn [app with_app]. rewrite validate_reads.
      destruct (accepts f); cbn; lia.
Qed.

Lemma only_the_first_file_is_read_witness :
  exists p1,
    page_step (page_initial "") (Drop [photo_jpg; huge_png; a_png]) = Some p1
    /\ emitted initial (app p1) = [EReadAsDataURL 0 photo_jpg].
Proof.
  destruct (only_the_first_file_is_read (page_initial "")
              [photo_jpg; huge_png; a_png] eq_refl)
    as (p1 & p2 & H1 & _ & _ & _ & _ & Happ & _).
  exists p1. split; [exact H1 |]. rewrite Happ. vm_compute. reflexivity.
Defined.

(** ** The scroll lock *)

Lemma step_keeps_mounted (s : State) (e : Event) (t : State) :
  e <> Unmount -> step s e = Some t -> mounted (env t) = mounted (env s).
Proof.
  intros He. destruct_state s. destruct e; unfold step; red_state;
    repeat case_decide;
    try match goal with |- (if ?m then _ else _) = _ -> _ => destruct m end;
    intros Hstep; try discriminate; try congruence; injection Hstep as <-.
  - destruct (validate_keeps_processing file
                (MkState (MkView im pi fn fs er ip pr ol pl) (MkRefs ac pu)
                   (MkEnv st nu ab jb nj rd nr lg true))) as [_ H].
    exact H.
  - run_handlers. destruct ac; reflexivity.
  - reflexivity.
  - reflexivity.
  - run_handlers. destruct pu; reflexivity.
  - run_handlers. destruct (is_abort err); reflexivity.
  - run_handlers. destruct ac, pu; reflexivity.
  - run_handlers. destruct pi; reflexivity.
Qed.

Lemma or_empty (prev : string) :
  match prev with EmptyString => EmptyString | _ => prev end = prev.
Proof. destruct prev; reflexivity. Qed.

Lemma commit_keeps_app (was : bool) (p : Page) : app (commit was p) = app p.
Proof.
  unfold commit, lock_effect, lock_cleanup.
  destruct p as [dr ov [prev |] a]; cbn;
    destruct (mounted (env a)), (Bool.eqb was (isProcessing (view a))),
      (isProcessing (view a)); reflexivity.
Qed.

(** After a turn that left the overflow style and the pending cleanup alone,
    committing re-establishes the lock state. *)
Lemma commit_locks (overflow0 : string) (was : bool) (p : Page) :
  mounted (env (app p)) = true ->
  (if was
   then overflow p = "hidden" /\ scrollRestore p = Some overflow0
   else overflow p = overflow0 /\ scrollRestore p = None) ->
  lock_state overflow0 (commit was p).
Proof.
  intros Hm Hpre. unfold lock_state. rewrite commit_keeps_app, Hm.
  unfold commit, lock_effect, lock_cleanup. rewrite Hm.
  destruct p as [dr ov sr a]. cbn in *.
  destruct was, (isProcessing (view a)) eqn:Hnow; cbn;
    destruct Hpre as [-> ->]; cbn; rewrite ?Hnow; cbn; rewrite ?or_empty; auto.
Qed.

Lemma lock_state_initial (overflow0 : string) :
  lock_state overflow0 (page_initial overflow0).
Proof. unfold lock_state. cbn. auto. Qed.

Lemma lock_state_step (overflow0 : string) (p : Page) (pe : PageEvent) (p' : Page) :
  lock_state overflow0 p -> page_step p pe = Some p' -> lock_state overflow0 p'.
Proof.
  intros Hlock Hstep.
  assert (Hpre : mounted (env (app p)) = true ->
                 if isProcessing (view (app p))
                 then overflow p = "hidden" /\ scrollRestore p = Some overflow0
                 else overflow p = overflow0 /\ scrollRestore p = None).
  { intros Hm. unfold lock_state in Hlock. rewrite Hm in Hlock. exact Hlock. }
  destruct pe as [e | | | files | files]; cbn [page_step] in Hstep.
  - assert (Hcase : e = Unmount \/ e <> Unmount)
      by (destruct e; (left; reflexivity) || (right; discriminate)).
    destruct Hcase as [-> | He].
    + destruct (mounted (env (app p))) eqn:Hm; [| discriminate].
      injection Hstep as <-. unfold lock_state, page_unmount.
      destruct p as [dr ov sr a]. unfold lock_cleanup. cbn.
      destruct sr; cbn; destruct_state a; run_handlers; destruct pu; reflexivity.
    + assert (Hstep' : match step (app p) e with
                       | Some s' => Some (commit (isProcessing (view (app p)))
                                            (with_app (fun _ => s') p))
                       | None => None
                       end = Some p').
      { destruct e; try exact Hstep. congruence. }
      clear Hstep. destruct (step (app p) e) as [s' |] eqn:Hs; [| discriminate].
      injection Hstep' as <-.
      pose proof (step_keeps_mounted _ e s' He Hs) as Hm'.
      destruct (mounted (env (app p))) eqn:Hm.
      * apply commit_locks; [destruct p; exact Hm' |].
        destruct p; exact (Hpre eq_refl).
      * unfold lock_state in *. rewrite commit_keeps_app.
        destruct p as [dr ov sr a]. cbn in *. rewrite Hm'. rewrite Hm in Hlock.
        unfold commit. cbn. rewrite Hm'. exact Hlock.
  - destruct (mounted (env (app p))) eqn:Hm; [| discriminate].
    injection Hstep as <-. apply commit_locks; destruct p; [exact Hm |].
    exact (Hpre eq_refl).
  - destruct (mounted (env (app p))) eqn:Hm; [| discriminate].
    injection Hstep as <-. apply commit_locks; destruct p; [exact Hm |].
    exact (Hpre eq_refl).
  - destruct (mounted (env (app p))) eqn:Hm; [| discriminate].
    injection Hstep as <-.
    destruct (process_first_unchanged files (setIsDragging false p))
      as (_ & Hov & Hsr & _).
    apply commit_locks.
    + unfold handleDrop. destruct files, p; cbn in *; [exact Hm |].
      rewrite (proj2 (validate_keeps_processing _ _)). exact Hm.
    + unfold handleDrop. rewrite Hov, Hsr. destruct p. exact (Hpre eq_refl).
  - destruct (mounted (env (app p))) eqn:Hm; [| discriminate].
    injection Hstep as <-.
    destruct (process_first_unchanged files p) as (_ & Hov & Hsr & _).
    apply commit_locks.
    + unfold handleFileChange. destruct files, p; cbn in *; [exact Hm |].
      rewrite (proj2 (validate_keeps_processing _ _)). exact Hm.
    + unfold handleFileChange. rewrite Hov, Hsr. exact (Hpre eq_refl).
Qed.

Lemma page_run_reachable (overflow0 : string) (trace : list PageEvent) (p q : Page) :
  page_reachable overflow0 p -> page_run p trace = Some q ->
  page_reachable overflow0 q.
Proof.
  revert p. induction trace as [| pe trace IH]; intros p Hp Hrun.
  - injection Hrun as <-. exact Hp.
  - cbn [page_run] in Hrun. destruct (page_step p pe) as [p' |] eqn:Hstep;
      [| discriminate].
    exact (IH p' (page_reachable_step overflow0 p pe p' Hp Hstep) Hrun).
Qed.

Lemma page_after_reachable (overflow0 : string) (trace : list PageEvent) :
  page_reachable overflow0 (page_after overflow0 trace).
Proof.
  unfold page_after.
  destruct (page_run (page_initial overflow0) trace) as [q |] eqn:Hrun.
  - exact (page_run_reachable overflow0 trace _ q
             (page_reachable_initial overflow0) Hrun).
  - exact (page_reachable_initial overflow0).
Qed.

(** X19. While the component is mounted, the document's overflow style is
    [hidden] exactly while the processing flag is on, and otherwise is the
    style the document had at the start; once the component is unmounted
    the style is empty, whatever it was at the start. *)
Theorem scroll_is_locked_exactly_while_processing
    (overflow0 : string) (p : Page) :
  page_reachable overflow0 p ->
  (mounted (env (app p)) = true -> isProcessing (view (app p)) = true ->
   overflow p = "hidden")
  /\ (mounted (env (app p)) = true -> isProcessing (view (app p)) = false ->
      overflow p = overflow0)
  /\ (mounted (env (app p)) = false -> overflow p = EmptyString).
Proof.
  intros Hreach.
  assert (Hlock : lock_state overflow0 p).
  { induction Hreach as [| p pe p' _ IH Hstep].
    - apply lock_state_initial.
    - exact (lock_state_step overflow0 p pe p' IH Hstep). }
  unfold lock_state in Hlock.
  destruct (mounted (env (app p))), (isProcessing (view (app p)));
    repeat split; intros; try discriminate; tauto.
Qed.

Lemma scroll_is_locked_exactly_while_processing_witness :
  overflow (page_after "scroll" [Pipeline (Submit photo_jpg);
                                 Pipeline (ReaderLoad 0 "data:photo")]) = "hidden"
  /\ overflow (page_after "scroll" [Pipeline (Submit photo_jpg);
                                    Pipeline (ReaderLoad 0 "data:photo");
                                    Pipeline (Resolved 0 "photo-cutout")]) = "scroll"
  /\ overflow (page_after "scroll" [Pipeline (Submit photo_jpg);
                                    Pipeline Unmount]) = EmptyString.
Proof.
  split; [| split].
  - apply (scroll_is_locked_exactly_while_processing "scroll" _
             (page_after_reachable "scroll" _)); reflexivity.
  - apply (scroll_is_locked_exactly_while_processing "scroll" _
             (page_after_reachable "scroll" _)); reflexivity.
  - apply (scroll_is_locked_exactly_while_processing "scroll" _
             (page_after_reachable "scroll" _)); reflexivity.
Defined.
